(** * The path-addressed document mutation engine of [router.js]

    A shallow embedding of the maintenance handlers of [src/router.js]
    ([genericChangeField], [genericDeleteRoute], [genericInject],
    [genericTranslate], [addUniqueValuesToList], [pushArrayValue],
    [addArrayDuplicates], [removeArrayDuplicates]) and of the lodash path
    functions they call, followed by the properties of the specification
    that were checked against them.  Further functions of the file
    ([dotTraverse], [genericRefRoute], [testForDuplicates], [removeBid],
    [changeEmailStatus], [countUsers], [countSpaces]) are embedded after
    the handlers, and properties read off the code close the file.

    Modelling conventions.
    - A JavaScript value is a tree ([value]): documents fetched from the
      store are fresh trees, so a reference into a document is the access
      path that leads to it, and an in-place mutation is the update of the
      subtree at that path.  Only [addArrayDuplicates], whose specification
      speaks about aliasing, is modelled over an explicit heap ([Heap]).
    - Property reads of the handlers see own data properties only (no
      prototype chain), except for the local object literal [objectKeys]
      of [removeArrayDuplicates] and [testForDuplicates], whose prototype
      is [Object.prototype].  The lodash path functions parse paths as
      lodash 4.17 does (dots, brackets, quoted keys, the keys that [_.set]
      refuses to write) and report a read that a prototype could answer
      as outside of this fragment.  An ObjectId, a Date and an Error read
      as objects without properties.
    - Numbers are integers.  Strings are byte strings (indexing is by
      UTF-16 code unit in JavaScript; the two agree on ASCII).
    - A write that leaves this fragment (a named property written to an
      array, a property written to a Date, ...) is reported as such
      ([None], [Unmodelled], [OutOfModel]) and never as a success or as an
      exception. *)

From Stdlib Require Import List String Ascii ZArith NArith Arith Bool Lia.
From Stdlib Require Import DecimalString.
Import ListNotations.
Set Warnings "-register-all".
Open Scope string_scope.
Open Scope list_scope.

(** ** Strings *)

Definition dot : ascii := "."%char.

(** [String.prototype.split(".")]: the segments between dots; never empty. *)
Fixpoint splitDots (s : string) : list string :=
  match s with
  | EmptyString => [EmptyString]
  | String c rest =>
      match splitDots rest with
      | [] => [String c EmptyString]
      | seg :: segs =>
          if Ascii.eqb c dot then EmptyString :: seg :: segs
          else String c seg :: segs
      end
  end.

Fixpoint hasDot (s : string) : bool :=
  match s with
  | EmptyString => false
  | String c rest => Ascii.eqb c dot || hasDot rest
  end.

Definition digitValue (c : ascii) : option N :=
  let n := N_of_ascii c in
  if (48 <=? n)%N && (n <=? 57)%N then Some (n - 48)%N else None.

Fixpoint digitsValue (acc : N) (s : string) : option N :=
  match s with
  | EmptyString => Some acc
  | String c rest =>
      match digitValue c with
      | Some d => digitsValue (acc * 10 + d)%N rest
      | None => None
      end
  end.

(** The number written by a canonical decimal string: a single zero, or
    digits that do not start with a zero (lodash [reIsUint]). *)
Definition uintOfString (s : string) : option N :=
  match s with
  | EmptyString => None
  | String c rest =>
      match digitValue c with
      | Some 0%N => match rest with EmptyString => Some 0%N | _ => None end
      | Some d => digitsValue d rest
      | None => None
      end
  end.

(** An array index of ECMAScript: a canonical number below [2^32 - 1]. *)
Definition arrayIndex (s : string) : option nat :=
  match uintOfString s with
  | Some n => if (n <? 4294967295)%N then Some (N.to_nat n) else None
  | None => None
  end.

Definition stringOfZ (n : Z) : string := NilZero.string_of_int (Z.to_int n).

Definition stringOfNat (n : nat) : string := stringOfZ (Z.of_nat n).

Fixpoint joinWith (sep : string) (l : list string) : string :=
  match l with
  | [] => EmptyString
  | [s] => s
  | s :: rest => s ++ sep ++ joinWith sep rest
  end.

(** ** JavaScript values *)

Inductive value : Type :=
| VUndefined
| VNull
| VBool (b : bool)
| VNum (n : Z)
| VStr (s : string)
| VId (hex : string)                    (* an ObjectId of the store *)
| VDate (instant : Z)                   (* a Date *)
| VError (message : string)             (* an Error object *)
| VArr (elems : list value)
| VObj (fields : list (string * value)).

(** [v == null] *)
Definition nullish (v : value) : bool :=
  match v with VUndefined | VNull => true | _ => false end.

(** ToBoolean *)
Definition truthy (v : value) : bool :=
  match v with
  | VUndefined | VNull => false
  | VBool b => b
  | VNum n => negb (n =? 0)%Z
  | VStr s => negb (String.eqb s EmptyString)
  | _ => true
  end.

(** [typeof v === "object"] *)
Definition typeofObject (v : value) : bool :=
  match v with
  | VNull | VId _ | VDate _ | VError _ | VArr _ | VObj _ => true
  | _ => false
  end.

Definition isArray (v : value) : bool :=
  match v with VArr _ => true | _ => false end.

(** Association lists for the own properties of an object, in insertion
    order; the first binding of a key is the property. *)
Fixpoint assocGet (fs : list (string * value)) (k : string) : option value :=
  match fs with
  | [] => None
  | (k', v) :: rest => if String.eqb k' k then Some v else assocGet rest k
  end.

Fixpoint assocSet (fs : list (string * value)) (k : string) (v : value)
  : list (string * value) :=
  match fs with
  | [] => [(k, v)]
  | (k', v') :: rest =>
      if String.eqb k' k then (k', v) :: rest else (k', v') :: assocSet rest k v
  end.

Definition assocDelete (fs : list (string * value)) (k : string)
  : list (string * value) :=
  filter (fun kv => negb (String.eqb (fst kv) k)) fs.

Fixpoint charStrings (s : string) : list value :=
  match s with
  | EmptyString => []
  | String c rest => VStr (String c EmptyString) :: charStrings rest
  end.

(** [hasOwnProperty.call(v, k)] for a value that is not null or undefined. *)
Definition hasOwn (v : value) (k : string) : bool :=
  match v with
  | VObj fs => match assocGet fs k with Some _ => true | None => false end
  | VArr es =>
      match arrayIndex k with
      | Some i => Nat.ltb i (List.length es)
      | None => String.eqb k "length"
      end
  | VStr s =>
      match arrayIndex k with
      | Some i => Nat.ltb i (String.length s)
      | None => String.eqb k "length"
      end
  | _ => false
  end.

(** [v[k]] for a value that is not null or undefined. *)
Definition getProp (v : value) (k : string) : value :=
  match v with
  | VObj fs => match assocGet fs k with Some x => x | None => VUndefined end
  | VArr es =>
      match arrayIndex k with
      | Some i => nth i es VUndefined
      | None =>
          if String.eqb k "length" then VNum (Z.of_nat (List.length es))
          else VUndefined
      end
  | VStr s =>
      match arrayIndex k with
      | Some i => nth i (charStrings s) VUndefined
      | None =>
          if String.eqb k "length" then VNum (Z.of_nat (String.length s))
          else VUndefined
      end
  | _ => VUndefined
  end.

(** [es[i] = v] on an array: elements past the end are filled with holes,
    which read as [undefined]. *)
Fixpoint writeNth (es : list value) (i : nat) (v : value) : list value :=
  match es, i with
  | [], O => [v]
  | [], S i' => VUndefined :: writeNth [] i' v
  | _ :: rest, O => v :: rest
  | e :: rest, S i' => e :: writeNth rest i' v
  end.

(** [o[k] = v] on an object or an array.  [None]: the write leaves the
    fragment (a named property or the length of an array, a property of a
    Date, an ObjectId or an Error). *)
Definition setProp (o : value) (k : string) (v : value) : option value :=
  match o with
  | VObj fs => Some (VObj (assocSet fs k v))
  | VArr es =>
      match arrayIndex k with
      | Some i => Some (VArr (writeNth es i v))
      | None => None
      end
  | _ => None
  end.

(** ToString, with the built-in [toString] of arrays and objects; inside
    [Array.prototype.join] null and undefined print as the empty string.
    [dateString] is the runtime's rendering of a Date. *)
Fixpoint jsToString (dateString : Z -> string) (v : value) : string :=
  match v with
  | VUndefined => "undefined"
  | VNull => "null"
  | VBool true => "true"
  | VBool false => "false"
  | VNum n => stringOfZ n
  | VStr s => s
  | VId hex => hex
  | VDate t => dateString t
  | VError m => "Error: " ++ m
  | VArr es =>
      joinWith ","
        (map (fun e => if nullish e then EmptyString
                       else jsToString dateString e) es)
  | VObj _ => "[object Object]"
  end.

(** The names that every object literal inherits from [Object.prototype];
    each of them reads as a function or an object, hence as true. *)
Definition objectPrototypeKeys : list string :=
  [ "constructor"; "__defineGetter__"; "__defineSetter__"; "hasOwnProperty";
    "__lookupGetter__"; "__lookupSetter__"; "isPrototypeOf";
    "propertyIsEnumerable"; "toString"; "valueOf"; "__proto__";
    "toLocaleString" ].

Definition memString (k : string) (l : list string) : bool :=
  existsb (String.eqb k) l.

(** ** The lodash path functions

    [_.has], [_.get], [_.set] and [_.toPath] as lodash 4.17 defines them.
    A path string is read by [stringToPath], with its dots, brackets and
    quoted keys.  Where lodash reads a property that the holder does not
    own and that a prototype may define, the functions answer [None]:
    the read leaves the data of the document. *)
Module Lodash.

Definition openBracket : ascii := "["%char.
Definition closeBracket : ascii := "]"%char.
Definition minusSign : ascii := "-"%char.
Definition backslash : ascii := ascii_of_nat 92.
Definition doubleQuote : ascii := ascii_of_nat 34.
Definition singleQuote : ascii := ascii_of_nat 39.

(** A word character of a regular expression: a letter, a digit or an
    underscore. *)
Definition isWordChar (c : ascii) : bool :=
  let n := N_of_ascii c in
  ((48 <=? n) && (n <=? 57) || (65 <=? n) && (n <=? 90)
   || (97 <=? n) && (n <=? 122) || (n =? 95))%N.

(** [reIsPlainProp.test(s)]: word characters only. *)
Fixpoint isPlainProp (s : string) : bool :=
  match s with
  | EmptyString => true
  | String c rest => isWordChar c && isPlainProp rest
  end.

Fixpoint hasChar (c : ascii) (s : string) : bool :=
  match s with
  | EmptyString => false
  | String c' rest => Ascii.eqb c' c || hasChar c rest
  end.

(** [reIsDeepProp.test(s)].  The expression matches a dot, or an opening
    bracket, then text without brackets or a quoted string, then a closing
    bracket; a string has such a part exactly when it has a dot, or an
    opening bracket with a closing bracket somewhere after it. *)
Fixpoint isDeepProp (s : string) : bool :=
  match s with
  | EmptyString => false
  | String c rest =>
      Ascii.eqb c dot
      || (Ascii.eqb c openBracket && hasChar closeBracket rest)
      || isDeepProp rest
  end.

(** [isKey(value, object)] for a string: a plain word, a string without
    deep syntax, or a property of [object] (a name with deep syntax is
    on no prototype, so that [in] is [hasOwnProperty] here). *)
Definition isKey (p : string) (object : value) : bool :=
  isPlainProp p || negb (isDeepProp p)
  || (negb (nullish object) && hasOwn object p).

(** *** stringToPath

    [rePropName] is tried at every position of the string, its three
    alternatives in order: a run of characters other than the dot and the
    brackets; a bracket group that holds a number or a quoted string; the
    empty match before a dot or an empty bracket pair that is followed by
    a dot, by an empty bracket pair or by the end.  Where none matches the
    search moves on by one character. *)

Definition special (c : ascii) : bool :=
  Ascii.eqb c dot || Ascii.eqb c openBracket || Ascii.eqb c closeBracket.

Fixpoint hasSpecial (s : string) : bool :=
  match s with
  | EmptyString => false
  | String c rest => special c || hasSpecial rest
  end.

(** The longest prefix without a dot or a bracket, and what follows it. *)
Fixpoint plainRun (s : string) : string * string :=
  match s with
  | EmptyString => (EmptyString, EmptyString)
  | String c rest =>
      if special c then (EmptyString, s)
      else (String c (fst (plainRun rest)), snd (plainRun rest))
  end.

Definition isDigit (c : ascii) : bool :=
  match digitValue c with Some _ => true | None => false end.

Fixpoint digitRun (s : string) : string * string :=
  match s with
  | EmptyString => (EmptyString, EmptyString)
  | String c rest =>
      if isDigit c then (String c (fst (digitRun rest)), snd (digitRun rest))
      else (EmptyString, s)
  end.

(** A number after the opening bracket: an optional minus sign, digits,
    an optional fraction, and the closing bracket.  The result is the
    text of the number and what follows the closing bracket. *)
Definition bracketNumber (s : string) : option (string * string) :=
  let signed :=
    match s with
    | String c rest =>
        if Ascii.eqb c minusSign then (String c EmptyString, rest)
        else (EmptyString, s)
    | EmptyString => (EmptyString, s)
    end in
  let digits := digitRun (snd signed) in
  match fst digits with
  | EmptyString => None
  | _ =>
      let fraction :=
        match snd digits with
        | String c rest =>
            if Ascii.eqb c dot then
              match fst (digitRun rest) with
              | EmptyString => (EmptyString, snd digits)
              | ds => (String c ds, snd (digitRun rest))
              end
            else (EmptyString, snd digits)
        | EmptyString => (EmptyString, snd digits)
        end in
      match snd fraction with
      | String c after =>
          if Ascii.eqb c closeBracket
          then Some ((fst signed ++ fst digits ++ fst fraction)%string, after)
          else None
      | EmptyString => None
      end
  end.

(** A character that the dot of a regular expression does not match. *)
Definition lineEnd (c : ascii) : bool :=
  Ascii.eqb c (ascii_of_nat 10) || Ascii.eqb c (ascii_of_nat 13).

(** The text of a quoted string up to its closing quote [q], and what
    follows that quote: a backslash takes the next character with it. *)
Fixpoint quotedBody (q : ascii) (s : string) : option (string * string) :=
  match s with
  | EmptyString => None
  | String c rest =>
      if Ascii.eqb c q then Some (EmptyString, rest)
      else if Ascii.eqb c backslash then
        match rest with
        | String c' rest' =>
            if lineEnd c' then None
            else
              match quotedBody q rest' with
              | Some (body, after) => Some (String c (String c' body), after)
              | None => None
              end
        | EmptyString => None
        end
      else
        match quotedBody q rest with
        | Some (body, after) => Some (String c body, after)
        | None => None
        end
  end.

(** [subString.replace(reEscapeChar, "$1")]: a backslash is dropped, and
    of two backslashes one is kept. *)
Fixpoint unescape (s : string) : string :=
  match s with
  | EmptyString => EmptyString
  | String c rest =>
      if Ascii.eqb c backslash then
        match rest with
        | String c' rest' =>
            if Ascii.eqb c' backslash then String c' (unescape rest')
            else unescape rest
        | EmptyString => EmptyString
        end
      else String c (unescape rest)
  end.

(** A quoted string after the opening bracket, and the closing bracket. *)
Definition bracketQuoted (s : string) : option (string * string) :=
  match s with
  | String q rest =>
      if Ascii.eqb q doubleQuote || Ascii.eqb q singleQuote then
        match quotedBody q rest with
        | Some (body, String c after) =>
            if Ascii.eqb c closeBracket then Some (unescape body, after)
            else None
        | _ => None
        end
      else None
  | EmptyString => None
  end.

(** The second alternative, on the text after the opening bracket. *)
Definition bracketToken (s : string) : option (string * string) :=
  match bracketNumber s with
  | Some t => Some t
  | None => bracketQuoted s
  end.

(** The text starts with a dot or with an empty bracket pair; the result
    is what follows it. *)
Definition afterSeparator (s : string) : option string :=
  match s with
  | String c rest =>
      if Ascii.eqb c dot then Some rest
      else if Ascii.eqb c openBracket then
        match rest with
        | String c' rest' =>
            if Ascii.eqb c' closeBracket then Some rest' else None
        | EmptyString => None
        end
      else None
  | EmptyString => None
  end.

(** The third alternative: the empty match. *)
Definition emptySegmentAt (s : string) : bool :=
  match afterSeparator s with
  | Some EmptyString => true
  | Some rest => match afterSeparator rest with Some _ => true | None => false end
  | None => false
  end.

(** The matches of [rePropName] in [s]; every step takes at least one
    character, so that [fuel] is enough when it is the length of [s]. *)
Fixpoint scanPath (fuel : nat) (s : string) : list string :=
  match fuel with
  | O => []
  | S fuel' =>
      match s with
      | EmptyString => []
      | String c rest =>
          if negb (special c)
          then fst (plainRun s) :: scanPath fuel' (snd (plainRun s))
          else
            match (if Ascii.eqb c openBracket then bracketToken rest
                   else None) with
            | Some (token, after) => token :: scanPath fuel' after
            | None =>
                if emptySegmentAt s then EmptyString :: scanPath fuel' rest
                else scanPath fuel' rest
            end
      end
  end.

(** [stringToPath(s)]: an empty key first when the string starts with a
    dot, then the matches. *)
Definition stringToPath (s : string) : list string :=
  match s with
  | String c _ =>
      if Ascii.eqb c dot then EmptyString :: scanPath (String.length s) s
      else scanPath (String.length s) s
  | EmptyString => []
  end.

Definition castPath (p : string) (object : value) : list string :=
  if isKey p object then [p] else stringToPath p.

(** [_.toPath(p)] *)
Definition toPath (p : string) : list string := stringToPath p.

Definition isObject (v : value) : bool :=
  match v with
  | VId _ | VDate _ | VError _ | VArr _ | VObj _ => true
  | _ => false
  end.

(** [isIndex(k)]: a canonical number below [MAX_SAFE_INTEGER]. *)
Definition isIndex (k : string) : bool :=
  match uintOfString k with
  | Some n => (n <? 9007199254740991)%N
  | None => false
  end.

Definition numericKey (k : string) : bool :=
  match uintOfString k with Some _ => true | None => false end.

(** [object[k]] finds its value in the data of the document: an object
    owns [k] or [Object.prototype] does not define it; an array or a
    string is read at a number or at its length; any other value is read
    at a number. *)
Definition readable (object : value) (k : string) : bool :=
  match object with
  | VObj _ => hasOwn object k || negb (memString k objectPrototypeKeys)
  | VArr _ | VStr _ => numericKey k || String.eqb k "length"
  | _ => numericKey k
  end.

(** [object[k]] for an [object] that is not null or undefined. *)
Definition read (object : value) (k : string) : option value :=
  if readable object k then Some (getProp object k) else None.

Fixpoint baseGetLoop (object : value) (path : list string) : option value :=
  match path with
  | [] => Some object
  | k :: rest =>
      if nullish object then Some VUndefined
      else
        match read object k with
        | Some x => baseGetLoop x rest
        | None => None
        end
  end.

Definition baseGet (object : value) (path : list string) : option value :=
  match path with
  | [] => Some VUndefined
  | _ => baseGetLoop object path
  end.

(** [_.get(object, p, defaultValue)] *)
Definition get (object : value) (p : string) (defaultValue : value)
  : option value :=
  if nullish object then Some defaultValue
  else
    match baseGet object (castPath p object) with
    | Some VUndefined => Some defaultValue
    | result => result
    end.

(** The last test of [hasPath]: an index below the length of an array. *)
Definition indexInArray (object : value) (k : string) : bool :=
  match object with
  | VArr es =>
      match uintOfString k with
      | Some n => (n <? N.of_nat (List.length es))%N
      | None => false
      end
  | _ => false
  end.

Fixpoint hasPathLoop (object : value) (path : list string) : bool :=
  match path with
  | [] => false
  | [k] =>
      if nullish object then false
      else hasOwn object k || indexInArray object k
  | k :: rest =>
      if nullish object then false
      else if hasOwn object k then hasPathLoop (getProp object k) rest
      else false
  end.

(** [_.has(object, p)] *)
Definition has (object : value) (p : string) : bool :=
  negb (nullish object) && hasPathLoop object (castPath p object).

(** The keys at which [baseSet] stops. *)
Definition guardedKey (k : string) : bool :=
  String.eqb k "__proto__" || String.eqb k "constructor"
  || String.eqb k "prototype".


(** [baseSet]: walks [path] from [nested], keeps the objects it meets,
    replaces every other value by a new array (before an index) or a new
    object, and writes [v] under the last key.  At a guarded key it
    returns, and what was assigned on the way stays assigned. *)
Fixpoint baseSet (nested : value) (path : list string) (v : value)
  : option value :=
  match path with
  | [] => Some nested
  | k :: rest =>
      if guardedKey k then Some nested
      else
        match rest with
        | [] => setProp nested k v
        | k' :: _ =>
            match read nested k with
            | None => None
            | Some objValue =>
                let newValue :=
                  if isObject objValue then objValue
                  else if isIndex k' then VArr [] else VObj [] in
                match baseSet newValue rest v with
                | Some child => setProp nested k child
                | None => None
                end
            end
        end
  end.

(** [_.set(object, p, v)]; the object is changed in place and returned. *)
Definition set (object : value) (p : string) (v : value) : option value :=
  if isObject object then baseSet object (castPath p object) v
  else Some object.

End Lodash.

(** The update of the subtree that [path] leads to, for in-place changes
    of an object reached through [path]. *)
Fixpoint updateAt (v : value) (path : list string) (f : value -> value)
  : value :=
  match path with
  | [] => f v
  | k :: rest =>
      match v with
      | VObj fs =>
          match assocGet fs k with
          | Some child => VObj (assocSet fs k (updateAt child rest f))
          | None => v
          end
      | VArr es =>
          match arrayIndex k with
          | Some i =>
              if Nat.ltb i (List.length es)
              then VArr (writeNth es i (updateAt (nth i es VUndefined) rest f))
              else v
          | None => v
          end
      | _ => v
      end
  end.

(** [arr.push(x)] *)
Definition arrayPush (x : value) (arr : value) : value :=
  match arr with
  | VArr es => VArr (es ++ [x])
  | _ => arr
  end.

(** ** Effects of a handler *)

(** Calls on the collection handle and on the fetched document; [D] is the
    type of documents in memory. *)
Inductive eventOf (D : Type) : Type :=
| FindOne (query : value)
| Find (query : value)
| MarkModified (field : value)
| Save (doc : D)
| Remove (doc : D).
Arguments FindOne {D} query.
Arguments Find {D} query.
Arguments MarkModified {D} field.
Arguments Save {D} doc.
Arguments Remove {D} doc.

Abbreviation event := (eventOf value).

Inductive exn : Type :=
| HttpError (status : Z) (message : string)   (* createError(...) *)
| TypeError                                   (* raised by the runtime *)
| IdError                                     (* ObjectId(...) refused *)
| StoreFailure (message : string).            (* a rejected store promise *)

(** A step either completes, throws, or leaves the modelled fragment. *)
Inductive result (A : Type) : Type :=
| Done (a : A)
| Raise (e : exn)
| Unmodelled.
Arguments Done {A} a.
Arguments Raise {A} e.
Arguments Unmodelled {A}.

Definition bind {A B : Type} (r : result A) (k : A -> result B) : result B :=
  match r with
  | Done a => k a
  | Raise e => Raise e
  | Unmodelled => Unmodelled
  end.

Notation "x <- r ;; k" := (bind r (fun x => k))
  (at level 61, r at next level, right associativity).

Inductive outcomeOf (D : Type) : Type :=
| Responded (status : Z) (body : D)       (* res.status(..).send(..) *)
| Threw (e : exn)
| NoResponse                              (* the handler ends silently *)
| OutOfModel.
Arguments Responded {D} status body.
Arguments Threw {D} e.
Arguments NoResponse {D}.
Arguments OutOfModel {D}.

(** What a request did: the response, the calls in order, and the
    document in memory at the end. *)
Record runOf (D : Type) : Type := mkRun {
  response : outcomeOf D;
  trace : list (eventOf D);
  document : D
}.
Arguments mkRun {D} response trace document.
Arguments response {D} r.
Arguments trace {D} r.
Arguments document {D} r.

Abbreviation outcome := (outcomeOf value).
Abbreviation run := (runOf value).

(** An answer of the store to a call. *)
Inductive reply : Type :=
| Failed (message : string)
| Returned (v : value).

(** The collaborators of the handlers: the collection handle of the store
    and the runtime. *)
Record Collaborators : Type := {
  findOne : value -> reply;
  find : value -> reply;
  save : value -> reply;
  remove : value -> reply;
  ObjectId : value -> option string;     (* [None]: the constructor throws *)
  idEquals : string -> value -> bool;    (* ObjectId.prototype.equals *)
  clock : nat -> Z;                      (* the n-th reading of the time *)
  dateString : Z -> string               (* Date.prototype.toString *)
}.

(** [Object.entries(v)]: the own enumerable properties, in order.  Request
    bodies are parsed JSON, so an ObjectId never occurs here. *)
Fixpoint ownFields (fs : list (string * value)) : list (string * value) :=
  match fs with
  | [] => []
  | (k, v) :: rest =>
      (k, v) :: filter (fun kv => negb (String.eqb (fst kv) k)) (ownFields rest)
  end.

Definition indexed (es : list value) : list (string * value) :=
  combine (map stringOfNat (seq 0 (List.length es))) es.

Definition ownEntries (v : value) : result (list (string * value)) :=
  match v with
  | VUndefined | VNull => Raise TypeError
  | VObj fs => Done (ownFields fs)
  | VArr es => Done (indexed es)
  | VStr s => Done (indexed (charStrings s))
  | VBool _ | VNum _ | VDate _ | VError _ => Done []
  | VId _ => Unmodelled
  end.

(** ** genericChangeField *)

Section Gateway.

Variable C : Collaborators.

(** The handler's [object], the number of clock readings so far, and the
    calls made so far (oldest first). *)
Record changeState : Type := mkState {
  object : value;
  reads : nat;
  calls : list event
}.

(** One iteration of the [forEach] over [Object.entries(changes)]. *)
Inductive step : Type :=
| Next (st : changeState)
| Abort (st : changeState) (e : exn)
| Leave.

(** [object.markModified(field)] *)
Definition markModified (st : changeState) (field : value) : step :=
  if nullish (object st) then Abort st TypeError
  else Next (mkState (object st) (reads st) (calls st ++ [MarkModified field])).

(** [_.set(object, path, v)] on the handler's object. *)
Definition setAt (st : changeState) (path : string) (v : value)
  : option changeState :=
  match Lodash.set (object st) path v with
  | Some o => Some (mkState o (reads st) (calls st))
  | None => None
  end.

(** The [$push] branch up to [arr.push(value)]. *)
Definition pushChange (st : changeState) (path : string) (v : value) : step :=
  let hasPath := Lodash.has (object st) path in
  match (if hasPath then Some st else setAt st path (VArr [])) with
  | None => Leave
  | Some st1 =>
      match Lodash.get (object st1) path v,
            Lodash.get (object st1) path VUndefined with
      | Some arr, Some stored =>
          if negb (isArray arr)
          then Abort st1 (HttpError 500 (path ++ " is not an array"))
          else
            (* [arr] is the array stored at [path], or [v] itself when
               nothing is stored there; the push changes that array in
               place *)
            match stored with
            | VUndefined => Next st1
            | _ =>
                Next (mkState
                        (updateAt (object st1)
                           (Lodash.castPath path (object st1)) (arrayPush v))
                        (reads st1) (calls st1))
            end
      | _, _ => Leave
      end
  end.

Definition firstSegment (path : string) : value :=
  match Lodash.toPath path with
  | k :: _ => VStr k
  | [] => VUndefined
  end.

Definition applyChange (st : changeState) (path : string) (change : value)
  : step :=
  if negb (typeofObject change)
  then Abort st (HttpError 400 ("Bad change value for " ++ path))
  else
    match ownEntries change with
    | Raise e => Abort st e
    | Unmodelled => Leave
    | Done [(changeType, v)] =>
        let changed :=
          if String.eqb changeType "$set" then
            match setAt st path v with Some st1 => Next st1 | None => Leave end
          else if String.eqb changeType "$setid" then
            match ObjectId C v with
            | None => Abort st IdError
            | Some hex =>
                match setAt st path (VId hex) with
                | Some st1 => Next st1
                | None => Leave
                end
            end
          else if String.eqb changeType "$setstatus" then
            let date := VDate (clock C (reads st)) in
            let st0 := mkState (object st) (S (reads st)) (calls st) in
            match setAt st0 path (VObj [("code", v); ("date", date)]) with
            | Some st1 => Next st1
            | None => Leave
            end
          else if String.eqb changeType "$push" then pushChange st path v
          else Abort st (HttpError 400 ("Unrecognized changeType " ++ changeType))
        in
        match changed with
        | Next st1 => markModified st1 (firstSegment path)
        | other => other
        end
    | Done _ => Abort st (HttpError 400 ("Bad change value for " ++ path))
    end.

Fixpoint applyChanges (st : changeState) (entries : list (string * value))
  : step :=
  match entries with
  | [] => Next st
  | (path, change) :: rest =>
      match applyChange st path change with
      | Next st1 => applyChanges st1 rest
      | other => other
      end
  end.

Definition genericChangeField (saveEnabled : bool) (query changes : value)
  : run :=
  match findOne C query with
  | Failed m => mkRun (Threw (StoreFailure m)) [FindOne query] VUndefined
  | Returned obj =>
      let st0 := mkState obj 0 [FindOne query] in
      match ownEntries changes with
      | Raise e => mkRun (Threw e) (calls st0) obj
      | Unmodelled => mkRun OutOfModel (calls st0) obj
      | Done entries =>
          match applyChanges st0 entries with
          | Abort st e => mkRun (Threw e) (calls st) (object st)
          | Leave => mkRun OutOfModel (calls st0) obj
          | Next st =>
              if negb saveEnabled
              then mkRun (Responded 200 (object st)) (calls st) (object st)
              else if nullish (object st)
              then mkRun (Threw TypeError) (calls st) (object st)
              else
                match save C (object st) with
                | Failed m =>
                    mkRun (Threw (StoreFailure m))
                      (calls st ++ [Save (object st)]) (object st)
                | Returned savedObject =>
                    mkRun (Responded 201 savedObject)
                      (calls st ++ [Save (object st)]) (object st)
                end
          end
      end
  end.

End Gateway.

(** ** References into a fetched document *)

(** A step from an object to one of its properties, or from an array to
    one of its elements. *)
Inductive accessor : Type :=
| Field (k : string)
| Element (i : nat).

(** A reference held by a handler ([currentObject], [previousObject],
    [array]): the way from the document to the referenced value. *)
Definition ref : Type := list accessor.

Definition step1 (v : value) (a : accessor) : value :=
  match a with
  | Field k => getProp v k
  | Element i => match v with VArr es => nth i es VUndefined | _ => VUndefined end
  end.

Fixpoint deref (v : value) (r : ref) : value :=
  match r with
  | [] => v
  | a :: rest => deref (step1 v a) rest
  end.

(** The document after the value behind [r] was replaced by [x]. *)
Fixpoint assign (v : value) (r : ref) (x : value) : option value :=
  match r with
  | [] => Some x
  | a :: rest =>
      match assign (step1 v a) rest x with
      | None => None
      | Some child =>
          match a, v with
          | Field k, _ => setProp v k child
          | Element i, VArr es => Some (VArr (writeNth es i child))
          | Element _, _ => None
          end
      end
  end.

Definition removeAt (i : nat) (es : list value) : list value :=
  firstn i es ++ skipn (S i) es.

(** [es.splice(start, 1)], where [None] stands for the start [-1]. *)
Definition spliceOne (start : option nat) (es : list value) : list value :=
  match start with
  | Some i => removeAt i es
  | None => removeAt (List.length es - 1) es
  end.

Fixpoint indexOfUndefined (es : list value) (i : nat) : option nat :=
  match es with
  | [] => None
  | VUndefined :: _ => Some i
  | _ :: rest => indexOfUndefined rest (S i)
  end.

(** ToLength, on the values where it needs no parsing. *)
Definition toLength (v : value) : option nat :=
  match v with
  | VUndefined | VNull => Some 0
  | VBool b => Some (if b then 1 else 0)
  | VNum n => Some (Z.to_nat n)
  | _ => None
  end.

(** The argument list that [f.apply(thisArg, v)] builds from [v]. *)
Definition argumentsOf (v : value) : result (list value) :=
  match v with
  | VUndefined | VNull => Done []
  | VArr es => Done es
  | VObj _ =>
      match toLength (getProp v "length") with
      | Some n => Done (map (fun i => getProp v (stringOfNat i)) (seq 0 n))
      | None => Unmodelled
      end
  | VId _ | VDate _ | VError _ => Done []
  | VBool _ | VNum _ | VStr _ => Raise TypeError
  end.

Fixpoint setIndexed (fs : list (string * value)) (from : nat) (args : list value)
  : list (string * value) :=
  match args with
  | [] => fs
  | x :: rest => setIndexed (assocSet fs (stringOfNat from) x) (S from) rest
  end.

(** [Array.prototype.push.apply(this, args)]: on an array the elements are
    appended; on any other object they are stored under the indices that
    follow its [length], which is then updated. *)
Definition pushApply (this : value) (args : list value) : result value :=
  match this with
  | VArr es => Done (VArr (es ++ args))
  | VObj fs =>
      match toLength (getProp this "length") with
      | Some len =>
          Done (VObj (assocSet (setIndexed fs len args) "length"
                        (VNum (Z.of_nat (len + List.length args)))))
      | None => Unmodelled
      end
  | VUndefined | VNull | VStr _ => Raise TypeError
  | VBool _ | VNum _ => Done this
  | VId _ | VDate _ | VError _ => Unmodelled
  end.

(** [o[k] = x] in strict mode, for any [o]. *)
Definition writeProp (o : value) (k : string) (x : value) : result value :=
  match o with
  | VUndefined | VNull | VBool _ | VNum _ | VStr _ => Raise TypeError
  | _ => match setProp o k x with Some o' => Done o' | None => Unmodelled end
  end.

(** [delete o[k]] in strict mode, for [o] that is not null or undefined. *)
Definition deleteProp (o : value) (k : string) : result value :=
  match o with
  | VObj fs => Done (VObj (assocDelete fs k))
  | VArr es =>
      match arrayIndex k with
      | Some i =>
          if Nat.ltb i (List.length es) then Done (VArr (writeNth es i VUndefined))
          else Done o
      | None => if String.eqb k "length" then Raise TypeError else Done o
      end
  | VStr s => if hasOwn o k then Raise TypeError else Done o
  | _ => Done o
  end.

(** [s.split(".")] for a request field [s]. *)
Definition splitField (s : value) : result (list string) :=
  match s with
  | VStr str => Done (splitDots str)
  | _ => Raise TypeError
  end.

(** [v.forEach], [v.map], [v.find]: only arrays have them. *)
Definition elementsOf (v : value) : result (list value) :=
  match v with
  | VArr es => Done es
  | _ => Raise TypeError
  end.


Section Handlers.

Variable C : Collaborators.

(** ToPropertyKey *)
Definition propertyKey (v : value) : string := jsToString (dateString C) v.

(** [v.toString()] *)
Definition toStringCall (v : value) : result string :=
  match v with
  | VUndefined | VNull => Raise TypeError
  | VObj fs =>
      match assocGet fs "toString" with
      | Some _ => Raise TypeError
      | None => Done (jsToString (dateString C) v)
      end
  | _ => Done (jsToString (dateString C) v)
  end.

(** The end of most handlers: answer with the document in memory, or save
    it and answer with what the store returns. *)
Definition respondOrSave (saveEnabled : bool) (calls : list event)
  (object : value) : run :=
  if negb saveEnabled then mkRun (Responded 200 object) calls object
  else
    match save C object with
    | Failed m => mkRun (Responded 500 (VError m)) (calls ++ [Save object]) object
    | Returned savedObject =>
        mkRun (Responded 200 savedObject) (calls ++ [Save object]) object
    end.

(** The answer after a mutation [r] of the document: when the mutation
    throws, the run keeps the document and the calls it started from. *)
Definition abandon (r : result (value * list event)) (calls : list event)
  (object : value) (k : value -> list event -> run) : run :=
  match r with
  | Done (object', calls') => k object' calls'
  | Raise e => mkRun (Threw e) calls object
  | Unmodelled => mkRun OutOfModel calls object
  end.

(** *** genericDeleteRoute *)

(** [array.find(arrayObject => arrayObject._id.equals(id))], as the index
    of the element found. *)
Fixpoint findById (es : list value) (id : value) (i : nat) : result (option nat) :=
  match es with
  | [] => Done None
  | e :: rest =>
      if nullish e then Raise TypeError
      else
        match getProp e "_id" with
        | VId hex => if idEquals C hex id then Done (Some i) else findById rest id (S i)
        | _ => Raise TypeError
        end
  end.

(** The [forEach] over [deleteFieldsById]: [currentObject] ([None] when it
    is undefined) and [previousObject] after the last descriptor. *)
Fixpoint descendById (object : value) (currentObject previousObject : option ref)
  (descriptors : list value) : result (option ref * option ref) :=
  match descriptors with
  | [] => Done (currentObject, previousObject)
  | currentField :: rest =>
      match currentObject with
      | None => Raise TypeError
      | Some cur =>
          if nullish currentField || nullish (deref object cur) then Raise TypeError
          else
            let next := cur ++ [Field (propertyKey (getProp currentField "field"))] in
            let id := getProp currentField "id" in
            if nullish id
            then descendById object (Some next) (Some next) rest
            else
              es <- elementsOf (deref object next) ;;
              found <- findById es id 0 ;;
              match found with
              | Some i => descendById object (Some (next ++ [Element i])) (Some next) rest
              | None => descendById object None (Some next) rest
              end
      end
  end.

(** [previousObject.indexOf(currentObject)]: an element is found at its
    own place, the array itself is not one of its elements. *)
Definition indexOfRef (es : list value) (previous : ref) (current : option ref)
  : option nat :=
  match current with
  | None => indexOfUndefined es 0
  | Some cur =>
      match skipn (List.length previous) cur with
      | [Element i] => Some i
      | _ => None
      end
  end.

Definition deleteById (object deleteFieldsById : value)
  : result (value * list event) :=
  descriptors <- elementsOf deleteFieldsById ;;
  refs <- descendById object (Some []) None descriptors ;;
  match snd refs with
  | None => Raise TypeError
  | Some previous =>
      es <- elementsOf (deref object previous) ;;
      let removeIndex := indexOfRef es previous (fst refs) in
      match assign object previous (VArr (spliceOne removeIndex es)) with
      | None => Unmodelled
      | Some object' =>
          Done (object', [MarkModified (nth 0 descriptors VUndefined)])
      end
  end.

Fixpoint deleteEach (object : value) (calls : list event) (fields : list value)
  : result (value * list event) :=
  match fields with
  | [] => Done (object, calls)
  | deleteField :: rest =>
      match object with
      | VObj fs =>
          deleteEach (VObj (assocDelete fs (propertyKey deleteField)))
            (calls ++ [MarkModified deleteField]) rest
      | _ => Unmodelled
      end
  end.

Definition genericDeleteRoute (saveEnabled : bool)
  (query deleteFields deleteFieldsById deleteAll deleteArray : value) : run :=
  if negb (truthy deleteFields || truthy deleteFieldsById
           || truthy deleteAll || truthy deleteArray)
  then mkRun (Responded 400 (VStr "Nothing to delete!")) [] VUndefined
  else if nullish query
  then mkRun (Responded 500 (VStr "No query")) [] VUndefined
  else
    let calls := [FindOne query] in
    match findOne C query with
    | Failed m => mkRun (Responded 500 (VError m)) calls VUndefined
    | Returned object =>
        if nullish object
        then mkRun (Responded 500 (VObj [("gigitError", VStr "no objects found ")]))
               calls object
        else if truthy deleteFieldsById
        then abandon (deleteById object deleteFieldsById) calls object
               (fun object' marks => respondOrSave saveEnabled (calls ++ marks) object')
        else if truthy deleteAll
        then
          if negb saveEnabled then mkRun (Responded 200 object) calls object
          else
            match remove C object with
            | Failed m =>
                mkRun (Responded 500 (VError m)) (calls ++ [Remove object]) object
            | Returned savedObject =>
                mkRun (Responded 200 savedObject) (calls ++ [Remove object]) object
            end
        else if truthy deleteFields
        then abandon (fields <- elementsOf deleteFields ;; deleteEach object [] fields)
               calls object
               (fun object' marks => respondOrSave saveEnabled (calls ++ marks) object')
        else if negb (nullish deleteArray)
        then abandon (o <- writeProp object (propertyKey deleteArray) (VArr []) ;;
                      Done (o, [MarkModified deleteArray]))
               calls object
               (fun object' marks => respondOrSave saveEnabled (calls ++ marks) object')
        else mkRun (Responded 400 (VStr "Nothing to delete!")) calls object
    end.

(** *** genericTranslate *)

(** The loop [for (index = 0; index < tokens.length - 1; index++)] that
    follows all tokens but the last from [object], stopping at null. *)
Fixpoint followTokens (object : value) (current : ref) (tokens : list string) : ref :=
  match tokens with
  | [] | [_] => current
  | token :: rest =>
      if nullish (deref object current) then current
      else followTokens object (current ++ [Field token]) rest
  end.

(** The body of [updates.forEach]: move the value at [fromField] to
    [toField] inside [object]. *)
Definition translateOne (object : value) (update : value)
  : result (value * list event) :=
  if nullish update then Raise TypeError
  else
    updateTokens <- splitField (getProp update "fromField") ;;
    let mark1 := MarkModified (VStr (hd EmptyString updateTokens)) in
    let currentValue := followTokens object [] updateTokens in
    let lastToken := last updateTokens EmptyString in
    taken <-
      (if nullish (deref object currentValue) then Done (VUndefined, object)
       else
         let finalValue := getProp (deref object currentValue) lastToken in
         container <- deleteProp (deref object currentValue) lastToken ;;
         match assign object currentValue container with
         | Some object' => Done (finalValue, object')
         | None => Unmodelled
         end) ;;
    let finalValue := fst taken in
    let object1 := snd taken in
    updateFields <- splitField (getProp update "toField") ;;
    let mark2 := MarkModified (VStr (hd EmptyString updateFields)) in
    let currentField := followTokens object1 [] updateFields in
    let lastField := last updateFields EmptyString in
    if negb (nullish (deref object1 currentField)) && negb (nullish finalValue)
    then
      container <- writeProp (deref object1 currentField) lastField finalValue ;;
      match assign object1 currentField container with
      | Some object2 => Done (object2, [mark1; mark2])
      | None => Unmodelled
      end
    else Done (object1, [mark1; mark2]).

Fixpoint translateUpdates (object : value) (calls : list event) (updates : list value)
  : result (value * list event) :=
  match updates with
  | [] => Done (object, calls)
  | update :: rest =>
      if nullish object then Raise TypeError
      else
        r <- translateOne object update ;;
        translateUpdates (fst r) (calls ++ snd r) rest
  end.

(** The body of [objects.forEach]; [object.save()] is called without a
    callback, so its answer is not looked at. *)
Fixpoint translateObjects (updates : value) (calls : list event)
  (done : list value) (objects : list value) : run :=
  match objects with
  | [] => mkRun NoResponse calls (VArr done)
  | object :: rest =>
      match (us <- elementsOf updates ;; translateUpdates object [] us) with
      | Raise e => mkRun (Threw e) calls (VArr (done ++ object :: rest))
      | Unmodelled => mkRun OutOfModel calls (VArr (done ++ object :: rest))
      | Done (object', marks) =>
          if nullish object'
          then mkRun (Threw TypeError) (calls ++ marks) (VArr (done ++ object' :: rest))
          else translateObjects updates (calls ++ marks ++ [Save object'])
                 (done ++ [object']) rest
      end
  end.

(** The callback that [genericTranslate] hands to [model.find]. *)
Definition translateCallback (updates : value) (calls : list event)
  (findError objects : value) : run :=
  if nullish findError
  then mkRun (Responded 500 findError) calls objects
  else
    match elementsOf objects with
    | Done os => translateObjects updates calls [] os
    | Raise e => mkRun (Threw e) calls objects
    | Unmodelled => mkRun OutOfModel calls objects
    end.

(** The store calls back with [(null, objects)] or with [(error)]. *)
Definition genericTranslate (query updates : value) : run :=
  match find C query with
  | Returned objects => translateCallback updates [Find query] VNull objects
  | Failed m => translateCallback updates [Find query] (VError m) VUndefined
  end.

(** *** genericInject *)

(** [array.find(sub => sub._id.toString() === id)], as an index. *)
Fixpoint findByIdString (es : list value) (id : string) (i : nat)
  : result (option nat) :=
  match es with
  | [] => Done None
  | e :: rest =>
      if nullish e then Raise TypeError
      else
        s <- toStringCall (getProp e "_id") ;;
        if String.eqb s id then Done (Some i) else findByIdString rest id (S i)
  end.

(** The [for] loop over [subFields]; [subIds] holds the identifiers that
    are left, so that it is empty when [subIds.length > index] fails. *)
Fixpoint injectLoop (parentObject : value) (currentObject : option ref)
  (subFields subIds : list string) (injectData : value) : result value :=
  match subFields with
  | [] => Done parentObject
  | currentField :: fields =>
      match currentObject with
      | None => Raise TypeError
      | Some cur =>
          let this := deref parentObject cur in
          if nullish this then Raise TypeError
          else
            match subIds with
            | currentFieldId :: ids =>
                es <- elementsOf (getProp this currentField) ;;
                found <- findByIdString es currentFieldId 0 ;;
                injectLoop parentObject
                  (match found with
                   | Some i => Some (cur ++ [Field currentField; Element i])
                   | None => None
                   end)
                  fields ids injectData
            | [] =>
                this' <-
                  (if String.eqb currentField "enum_opts"
                   then
                     ds <- elementsOf injectData ;;
                     writeProp this currentField
                       (VArr (map (fun currentData =>
                                     VArr [VObj [("text", currentData);
                                                 ("language", VStr "en")]]) ds))
                   else
                     (* currentObject[currentField].push.apply(currentObject, injectArray) *)
                     _ <- elementsOf (getProp this currentField) ;;
                     args <- argumentsOf injectData ;;
                     pushApply this args) ;;
                match assign parentObject cur this' with
                | Some parentObject' =>
                    injectLoop parentObject' (Some cur) fields [] injectData
                | None => Unmodelled
                end
            end
      end
  end.

Definition genericInject (saveEnabled : bool)
  (query injectData injectToField injectToFieldId : value) : run :=
  let calls := [FindOne query] in
  match findOne C query with
  | Failed m => mkRun (Responded 500 (VError m)) calls VUndefined
  | Returned parentObject =>
      if nullish parentObject
      then mkRun (Responded 404 (VObj [("gigitError", VStr "Not found!")]))
             calls parentObject
      else
        match (subFields <- splitField injectToField ;;
               subIds <- splitField injectToFieldId ;;
               Done (subFields, subIds)) with
        | Raise e => mkRun (Threw e) calls parentObject
        | Unmodelled => mkRun OutOfModel calls parentObject
        | Done (subFields, subIds) =>
            let calls1 := calls ++ [MarkModified (VStr (hd EmptyString subFields))] in
            abandon
              (o <- injectLoop parentObject (Some []) subFields subIds injectData ;;
               Done (o, calls1))
              calls1 parentObject
              (fun object' calls' => respondOrSave saveEnabled calls' object')
        end
  end.

(** *** addUniqueValuesToList *)

(** The rest of [while (array[fields[index]] != null)] once [index] is past
    the end of [fields]: the key is then ["undefined"]. *)
Fixpoint followUndefined (array : value) : ref :=
  match array with
  | VObj fs =>
      (fix scan (l : list (string * value)) : ref :=
         match l with
         | [] => []
         | (k, x) :: l' =>
             if String.eqb k "undefined"
             then if nullish x then [] else Field "undefined" :: followUndefined x
             else scan l'
         end) fs
  | _ => []
  end.

(** [while (array[fields[index]] != null) array = array[fields[index++]]],
    as the reference that [array] ends with. *)
Fixpoint followFields (array : value) (fields : list string) : ref :=
  match fields with
  | [] => followUndefined array
  | k :: rest =>
      if nullish (getProp array k) then []
      else Field k :: followFields (getProp array k) rest
  end.

(** [array.find(currentElement => currentElement.equals(currentId))] *)
Fixpoint findEqual (es : list value) (currentId : value) : result bool :=
  match es with
  | [] => Done false
  | VId hex :: rest =>
      if idEquals C hex currentId then Done true else findEqual rest currentId
  | _ :: _ => Raise TypeError
  end.

Fixpoint addEach (es : list value) (idValues : list value) : result (list value) :=
  match idValues with
  | [] => Done es
  | currentId :: rest =>
      existing <- findEqual es currentId ;;
      if existing then addEach es rest
      else
        match ObjectId C currentId with
        | Some hex => addEach (es ++ [VId hex]) rest
        | None => Raise IdError
        end
  end.

Definition addUniqueValuesToList (saveEnabled : bool)
  (query field idValues : value) : run :=
  let calls := [FindOne query] in
  match findOne C query with
  | Failed m => mkRun (Responded 500 (VError m)) calls VUndefined
  | Returned object =>
      if nullish object
      then mkRun (Responded 404 (VObj [("gigitError", VStr "No objects found")]))
             calls object
      else
        abandon
          (fields <- splitField field ;;
           let array := followFields object fields in
           ids <- elementsOf idValues ;;
           match ids with
           | [] => Done (object, [])
           | _ :: _ =>
               es <- elementsOf (deref object array) ;;
               es' <- addEach es ids ;;
               match assign object array (VArr es') with
               | Some object' => Done (object', [])
               | None => Unmodelled
               end
           end)
          calls object
          (fun object' _ =>
             if negb saveEnabled
             then mkRun (Responded 200 object') calls object'
             else
               let baseField :=
                 match field with
                 | VStr s => VStr (hd EmptyString (splitDots s))
                 | _ => VUndefined
                 end in
               respondOrSave true (calls ++ [MarkModified baseField]) object')
  end.

(** *** pushArrayValue *)

(** [idValues.forEach(idField => value[idField] = ObjectId(value[idField]))] *)
Fixpoint convertIds (v : value) (idFields : list value) : result value :=
  match idFields with
  | [] => Done v
  | idField :: rest =>
      if nullish v then Raise TypeError
      else
        match ObjectId C (getProp v (propertyKey idField)) with
        | None => Raise IdError
        | Some hex =>
            v' <- writeProp v (propertyKey idField) (VId hex) ;;
            convertIds v' rest
        end
  end.

Definition pushArrayValue (saveEnabled : bool)
  (query field v idValues : value) : run :=
  let calls := [FindOne query] in
  match findOne C query with
  | Failed m => mkRun (Responded 500 (VError m)) calls VUndefined
  | Returned object =>
      if nullish object
      then mkRun (Responded 404 (VObj [("gigitError", VStr "No objects found")]))
             calls object
      else
        let array := getProp object (propertyKey field) in
        match
          (match idValues with
           | VStr "object" =>
               match ObjectId C v with
               | Some hex => Done (VId hex)
               | None => Raise IdError
               end
           | VUndefined | VNull => Done v
           | _ => idFields <- elementsOf idValues ;; convertIds v idFields
           end)
        with
        | Raise e => mkRun (Threw e) calls object
        | Unmodelled => mkRun OutOfModel calls object
        | Done v' =>
            let calls1 := calls ++ [MarkModified field] in
            abandon
              (es <- elementsOf array ;;
               o <- writeProp object (propertyKey field) (VArr (es ++ [v'])) ;;
               Done (o, calls1))
              calls1 object
              (fun object' calls' => respondOrSave saveEnabled calls' object')
        end
  end.

(** *** removeArrayDuplicates *)

(** The callback of [filter]: [objectKeys] is the list of the keys set so
    far on the object literal; a key that [Object.prototype] defines reads
    as true before it was ever set. *)
Fixpoint keepFirsts (uniqueField : value) (objectKeys : list string)
  (es : list value) : result (list value) :=
  match es with
  | [] => Done []
  | currentObject :: rest =>
      ownKey <- toStringCall currentObject ;;
      fieldKey <-
        (if nullish uniqueField then Done (Some ownKey)
         else
           let sub := getProp currentObject (propertyKey uniqueField) in
           if nullish sub then Done None
           else s <- toStringCall sub ;; Done (Some s)) ;;
      match fieldKey with
      | None =>
          kept <- keepFirsts uniqueField objectKeys rest ;;
          Done (currentObject :: kept)
      | Some key =>
          if memString key objectKeys || memString key objectPrototypeKeys
          then keepFirsts uniqueField objectKeys rest
          else
            kept <- keepFirsts uniqueField (key :: objectKeys) rest ;;
            Done (currentObject :: kept)
      end
  end.

Definition removeArrayDuplicates (saveEnabled : bool)
  (query uniqueField arrayField : value) : run :=
  let calls := [FindOne query] in
  match findOne C query with
  | Failed m => mkRun (Responded 500 (VError m)) calls VUndefined
  | Returned object =>
      if nullish object then mkRun (Threw TypeError) calls object
      else
        match getProp object (propertyKey arrayField) with
        | VArr es =>
            abandon
              (kept <- keepFirsts uniqueField [] es ;;
               o <- writeProp object (propertyKey arrayField) (VArr kept) ;;
               Done (o, calls ++ [MarkModified arrayField]))
              calls object
              (fun object' calls' => respondOrSave saveEnabled calls' object')
        | _ => mkRun (Responded 404 (VStr "Array not found!")) calls object
        end
  end.

End Handlers.

(** ** addArrayDuplicates, over a heap

    The specification of [addArrayDuplicates] speaks about references
    shared between an element and its duplicate, so this handler is
    modelled with objects and arrays as cells of a heap and with values
    that refer to them. *)
Module Heap.

Inductive atom : Type :=
| AUndefined
| ANull
| ABool (b : bool)
| ANum (n : Z)
| AStr (s : string)
| AId (hex : string)
| ADate (instant : Z)
| AError (message : string).

(** A value: a primitive (or an immutable store object), or a reference
    to a cell. *)
Inductive hvalue : Type :=
| Atom (a : atom)
| Ref (l : nat).

(** An array or an object; the keys of an object are distinct. *)
Inductive cell : Type :=
| ArrayCell (elems : list hvalue)
| ObjectCell (fields : list (string * hvalue)).

(** The cell of the reference [l] is the [l]-th one; allocation appends. *)
Definition heap : Type := list cell.

Definition lookup (h : heap) (l : nat) : option cell := nth_error h l.

Fixpoint setCell (h : heap) (l : nat) (c : cell) : heap :=
  match h, l with
  | [], _ => []
  | _ :: rest, O => c :: rest
  | c0 :: rest, S l' => c0 :: setCell rest l' c
  end.

Definition hnullish (v : hvalue) : bool :=
  match v with
  | Atom AUndefined | Atom ANull => true
  | _ => false
  end.

Fixpoint fieldGet (fs : list (string * hvalue)) (k : string) : option hvalue :=
  match fs with
  | [] => None
  | (k', v) :: rest => if String.eqb k' k then Some v else fieldGet rest k
  end.

Fixpoint chars (s : string) : list hvalue :=
  match s with
  | EmptyString => []
  | String c rest => Atom (AStr (String c EmptyString)) :: chars rest
  end.

Definition elementOrLength (es : list hvalue) (k : string) : hvalue :=
  match arrayIndex k with
  | Some i => nth i es (Atom AUndefined)
  | None =>
      if String.eqb k "length" then Atom (ANum (Z.of_nat (List.length es)))
      else Atom AUndefined
  end.

(** [v[k]] for a value that is not null or undefined. *)
Definition hgetProp (h : heap) (v : hvalue) (k : string) : hvalue :=
  match v with
  | Ref l =>
      match lookup h l with
      | Some (ObjectCell fs) =>
          match fieldGet fs k with Some x => x | None => Atom AUndefined end
      | Some (ArrayCell es) => elementOrLength es k
      | None => Atom AUndefined
      end
  | Atom (AStr s) => elementOrLength (chars s) k
  | Atom _ => Atom AUndefined
  end.

Definition indexedProps (es : list hvalue) : list (string * hvalue) :=
  combine (map stringOfNat (seq 0 (List.length es))) es.

(** The own enumerable properties that [Object.assign] copies from a
    source.  Those of an ObjectId belong to the store's driver. *)
Definition ownProperties (h : heap) (v : hvalue)
  : result (list (string * hvalue)) :=
  match v with
  | Ref l =>
      match lookup h l with
      | Some (ObjectCell fs) => Done fs
      | Some (ArrayCell es) => Done (indexedProps es)
      | None => Unmodelled
      end
  | Atom (AStr s) => Done (indexedProps (chars s))
  | Atom (AId _) => Unmodelled
  | Atom _ => Done []
  end.

Definition copyable (h : heap) (v : hvalue) : bool :=
  match ownProperties h v with
  | Done _ => true
  | _ => false
  end.

(** A plain object: a reference to a cell that is an object and not an
    array. *)
Definition plainObject (h : heap) (v : hvalue) : bool :=
  match v with
  | Ref l =>
      match lookup h l with
      | Some (ObjectCell _) => true
      | _ => false
      end
  | Atom _ => false
  end.

(** The first [forEach]: [duplicates.push(Object.assign({}, element))] for
    every element; each copy is a new object.  The local array
    [duplicates] itself is the list that is returned. *)
Fixpoint copyEach (h : heap) (es : list hvalue) : result (heap * list hvalue) :=
  match es with
  | [] => Done (h, [])
  | currentArrayElement :: rest =>
      props <- ownProperties h currentArrayElement ;;
      r <- copyEach (h ++ [ObjectCell props]) rest ;;
      Done (fst r, Ref (List.length h) :: snd r)
  end.

(** An answer of [findOne]: an error, or the heap that holds the fetched
    document and the document itself. *)
Inductive fetched : Type :=
| FetchFailed (message : string)
| Fetched (h : heap) (object : hvalue).

Record Store : Type := {
  fetch : value -> fetched;
  persist : heap -> hvalue -> option string   (* [Some m]: saving failed *)
}.

(** A run and the heap it ends with. *)
Record heapRun : Type := mkHeapRun {
  memory : heap;
  result : runOf hvalue
}.

Definition addArrayDuplicates (dateString : Z -> string) (S : Store)
  (saveEnabled : bool) (query arrayField : value) : heapRun :=
  let calls := [FindOne query] in
  match fetch S query with
  | FetchFailed m =>
      mkHeapRun [] (mkRun (Responded 500 (Atom (AError m))) calls (Atom AUndefined))
  | Fetched h object =>
      if hnullish object then mkHeapRun h (mkRun (Threw TypeError) calls object)
      else
        let notFound :=
          mkHeapRun h
            (mkRun (Responded 404 (Atom (AStr "Array not found!"))) calls object) in
        match hgetProp h object (jsToString dateString arrayField) with
        | Ref a =>
            match lookup h a with
            | Some (ArrayCell es) =>
                match copyEach h es with
                | Raise e => mkHeapRun h (mkRun (Threw e) calls object)
                | Unmodelled => mkHeapRun h (mkRun OutOfModel calls object)
                | Done (h1, duplicates) =>
                    (* the second forEach pushes every duplicate *)
                    let h2 := setCell h1 a (ArrayCell (es ++ duplicates)) in
                    let calls1 := calls ++ [MarkModified arrayField] in
                    if negb saveEnabled
                    then mkHeapRun h2 (mkRun (Responded 200 object) calls1 object)
                    else
                      match persist S h2 object with
                      | Some m =>
                          mkHeapRun h2
                            (mkRun (Responded 500 (Atom (AError m)))
                               (calls1 ++ [Save object]) object)
                      | None =>
                          mkHeapRun h2
                            (mkRun (Responded 200 object)
                               (calls1 ++ [Save object]) object)
                      end
                end
            | _ => notFound
            end
        | _ => notFound
        end
  end.

(** The cells that can be reached from a value in at most [fuel] steps. *)
Fixpoint reach (fuel : nat) (h : heap) (v : hvalue) : list nat :=
  match fuel, v with
  | S fuel', Ref l =>
      l :: match lookup h l with
           | Some (ArrayCell es) => flat_map (reach fuel' h) es
           | Some (ObjectCell fs) => flat_map (fun kv => reach fuel' h (snd kv)) fs
           | None => []
           end
  | _, _ => []
  end.

(** Two values share a cell. *)
Definition aliased (h : heap) (v w : hvalue) : bool :=
  existsb (fun l => existsb (Nat.eqb l) (reach (List.length h) h w))
    (reach (List.length h) h v).

End Heap.

(** ** What the specification says about a run *)

(** A call that writes to the store. *)
Definition isWrite {D : Type} (e : eventOf D) : bool :=
  match e with
  | Save _ | Remove _ => true
  | _ => false
  end.

Definition writes {D : Type} (t : list (eventOf D)) : list (eventOf D) :=
  filter isWrite t.

(** The request failed: it was answered with an error status, it threw,
    or it left the modelled fragment.  A handler that ends without a
    response has not failed in this sense. *)
Definition failure {D : Type} (o : outcomeOf D) : Prop :=
  match o with
  | Responded status _ => (400 <= status)%Z
  | Threw _ | OutOfModel => True
  | NoResponse => False
  end.


(** ** A store for the examples *)

(** A collection that holds the single document [doc]: every query finds
    it, and saving succeeds.  Identifiers are compared as strings and the
    clock reads 1000, 1001, ... *)
Definition singleDocument (doc : value) : Collaborators := {|
  findOne := fun _ => Returned doc;
  find := fun _ => Returned (VArr [doc]);
  save := fun d => Returned d;
  remove := fun d => Returned d;
  ObjectId := fun v =>
    match v with
    | VStr s => if Nat.eqb (String.length s) 24 then Some s else None
    | VId s => Some s
    | _ => None
    end;
  idEquals := fun hex v =>
    match v with
    | VId s | VStr s => String.eqb hex s
    | _ => false
    end;
  clock := fun n => (1000 + Z.of_nat n)%Z;
  dateString := fun t => ("Date(" ++ stringOfZ t ++ ")")%string
|}.

(** A heap that holds the document [{tags: [{a: {b: 1}}, 5]}]: the
    document is cell 3, its array cell 2, the element cell 1 and the
    object nested in the element cell 0. *)
Definition taggedHeap : Heap.heap :=
  [ Heap.ObjectCell [("b", Heap.Atom (Heap.ANum 1))];
    Heap.ObjectCell [("a", Heap.Ref 0)];
    Heap.ArrayCell [Heap.Ref 1; Heap.Atom (Heap.ANum 5)];
    Heap.ObjectCell [("tags", Heap.Ref 2)] ].

Definition taggedStore : Heap.Store := {|
  Heap.fetch := fun _ => Heap.Fetched taggedHeap (Heap.Ref 3);
  Heap.persist := fun _ _ => None
|}.

(** A heap that holds the document [{tags: [{a: {b: 1}}, {c: 2}]}]: the
    document is cell 4, its array cell 3, the elements the cells 1 and 2,
    and the object nested in the first element cell 0. *)
Definition labelledHeap : Heap.heap :=
  [ Heap.ObjectCell [("b", Heap.Atom (Heap.ANum 1))];
    Heap.ObjectCell [("a", Heap.Ref 0)];
    Heap.ObjectCell [("c", Heap.Atom (Heap.ANum 2))];
    Heap.ArrayCell [Heap.Ref 1; Heap.Ref 2];
    Heap.ObjectCell [("tags", Heap.Ref 3)] ].

Definition labelledStore : Heap.Store := {|
  Heap.fetch := fun _ => Heap.Fetched labelledHeap (Heap.Ref 4);
  Heap.persist := fun _ _ => None
|}.

(** Documents for the examples. *)
Definition itemsDocument : value :=
  VObj [("items", VArr [VObj [("_id", VId "i1")]; VObj [("_id", VId "i2")]])].

Definition nestedDocument : value :=
  VObj [("items",
         VArr [VObj [("_id", VId "i1"); ("subitems", VArr [VStr "old"])]])].

Definition keyedDocument : value :=
  VObj [("items",
         VArr [VObj [("k", VStr "constructor")];
               VObj [("k", VStr "x")];
               VObj [("k", VStr "x")]])].

(** A collection with two documents: the query [2] finds [second], every
    other query finds [first]. *)
Definition twoDocuments (first second : value) : Collaborators := {|
  findOne := fun q =>
    match q with
    | VNum 2 => Returned second
    | _ => Returned first
    end;
  find := fun _ => Returned (VArr [first; second]);
  save := fun d => Returned d;
  remove := fun d => Returned d;
  ObjectId := ObjectId (singleDocument first);
  idEquals := idEquals (singleDocument first);
  clock := clock (singleDocument first);
  dateString := dateString (singleDocument first)
|}.

Definition pairsDocument : value :=
  VObj [("items",
         VArr [VObj [("k", VStr "x")];
               VObj [("k", VStr "y")];
               VObj [("k", VStr "x"); ("again", VBool true)]])].

Definition auctionDocument : value :=
  VObj [("bidHistory",
         VArr [VObj [("_id", VId "b1")];
               VObj [("_id", VId "b2")];
               VObj [("_id", VId "b3")]])].

Definition questionsDocument : value :=
  VObj [("questions",
         VArr [VObj [("_id", VId "q1"); ("enum_opts", VArr [VStr "old"])]])].

Definition notificationDocument : value :=
  VObj [("email", VObj [("to", VStr "a@b.c")])].

Definition membersDocument : value :=
  VObj [("members", VArr [VId "aaaaaaaaaaaaaaaaaaaaaaaa"])].

(** ** Further functions of [router.js] *)

(** *** dotTraverse *)

(** [dotTraverse(tree, path)]: the tree itself for a falsy path, else the
    value reached by reading the segments of [path] one after the other,
    undefined as soon as a falsy value is met. *)
Definition dotTraverse (tree path : value) : result value :=
  if negb (truthy path) then Done tree
  else
    steps <- splitField path ;;
    Done (fold_left
            (fun branch step =>
               if negb (truthy branch) then VUndefined else getProp branch step)
            steps tree).

(** *** Vocabulary of the statements *)

(** A value that is neither an array nor an object: reading any of its
    properties leads to no array. *)
Definition scalar (v : value) : bool :=
  match v with
  | VArr _ | VObj _ => false
  | _ => true
  end.

(** [l] is what is left of [l'] after some of its elements were dropped. *)
Inductive subsequence {A : Type} : list A -> list A -> Prop :=
| subsequence_nil : subsequence [] []
| subsequence_drop x l l' : subsequence l l' -> subsequence l (x :: l')
| subsequence_keep x l l' : subsequence l l' -> subsequence (x :: l) (x :: l').

Section MoreHandlers.

Variable C : Collaborators.

(** *** removeArrayDuplicates: the key of an element *)

(** The [fieldKey] that the callback of [filter] computes for
    [currentObject]; [None] is [null]. *)
Definition fieldKey (uniqueField currentObject : value) : result (option string) :=
  ownKey <- toStringCall C currentObject ;;
  if nullish uniqueField then Done (Some ownKey)
  else
    let sub := getProp currentObject (propertyKey C uniqueField) in
    if nullish sub then Done None
    else s <- toStringCall C sub ;; Done (Some s).

(** *** genericRefRoute *)

(** [Array.from(new Set(strings))]: the strings without repetition, each
    at the place of its first occurrence. *)
Fixpoint distinctStrings (seen : list string) (l : list string) : list string :=
  match l with
  | [] => []
  | s :: rest =>
      if memString s seen then distinctStrings seen rest
      else s :: distinctStrings (s :: seen) rest
  end.

(** [objects.map(object => object[refField].toString())] *)
Fixpoint refStrings (refField : value) (objects : list value)
  : result (list string) :=
  match objects with
  | [] => Done []
  | obj :: rest =>
      if nullish obj then Raise TypeError
      else
        s <- toStringCall C (getProp obj (propertyKey C refField)) ;;
        ss <- refStrings refField rest ;;
        Done (s :: ss)
  end.

(** [R] is the collection handle [refModel]; the handler runs inside
    [Promise.try], so that whatever it throws rejects the request. *)
Definition genericRefRoute (R : Collaborators)
  (query refField refQuery : value) : run :=
  if negb (truthy query)
  then mkRun (Threw (HttpError 422 "Missing query")) [] VUndefined
  else if negb (truthy refField)
  then mkRun (Threw (HttpError 422 "Missing refField")) [] VUndefined
  else if negb (truthy refQuery)
  then mkRun (Threw (HttpError 422 "Missing refQuery")) [] VUndefined
  else
    let calls := [Find query] in
    match find C query with
    | Failed m => mkRun (Threw (StoreFailure m)) calls VUndefined
    | Returned objects =>
        match
          (os <- elementsOf objects ;;
           ss <- refStrings refField os ;;
           let refIds := VArr (map VStr (distinctStrings [] ss)) in
           writeProp refQuery "_id" (VObj [("$in", refIds)]))
        with
        | Raise e => mkRun (Threw e) calls objects
        | Unmodelled => mkRun OutOfModel calls objects
        | Done refQuery' =>
            let calls1 := calls ++ [Find refQuery'] in
            match find R refQuery' with
            | Failed m => mkRun (Threw (StoreFailure m)) calls1 objects
            | Returned results => mkRun (Responded 200 results) calls1 objects
            end
        end
    end.

(** *** testForDuplicates *)

(** The [forEach] of [testForDuplicates]: the keys stored in [objectKeys]
    (latest first) and the elements pushed to [duplicateObjects]. *)
Fixpoint scanDuplicates (uniqueField : value) (objectKeys : list string)
  (duplicateObjects : list value) (es : list value)
  : result (list string * list value) :=
  match es with
  | [] => Done (objectKeys, duplicateObjects)
  | arrayElement :: rest =>
      if nullish arrayElement then Raise TypeError
      else
        key <- toStringCall C (getProp arrayElement (propertyKey C uniqueField)) ;;
        if memString key objectKeys || memString key objectPrototypeKeys
        then scanDuplicates uniqueField objectKeys
               (duplicateObjects ++ [arrayElement]) rest
        else scanDuplicates uniqueField (key :: objectKeys) duplicateObjects rest
  end.

Definition testForDuplicates (query field uniqueField : value) : run :=
  let calls := [FindOne query] in
  match findOne C query with
  | Failed m => mkRun (Responded 500 (VError m)) calls VUndefined
  | Returned obj =>
      if nullish obj
      then mkRun (Responded 404 (VObj [("gigitError", VStr "No object found!")]))
             calls obj
      else
        match
          (es <- elementsOf (getProp obj (propertyKey C field)) ;;
           r <- scanDuplicates uniqueField [] [] es ;;
           Done (VObj [("originalLength", VNum (Z.of_nat (List.length es)));
                       ("uniqeLength", VNum (Z.of_nat (List.length (fst r))));
                       ("duplicateObjects", VArr (snd r))]))
        with
        | Raise e => mkRun (Threw e) calls obj
        | Unmodelled => mkRun OutOfModel calls obj
        | Done report => mkRun (Responded 200 report) calls obj
        end
  end.

(** *** removeBid *)

Definition removeBid (saveEnabled : bool) (query modifiedBid : value) : run :=
  let calls := [FindOne query] in
  match findOne C query with
  | Failed m => mkRun (Responded 500 (VError m)) calls VUndefined
  | Returned auction =>
      if nullish auction then mkRun (Threw TypeError) calls auction
      else
        match
          (es <- elementsOf (getProp auction "bidHistory") ;;
           auctionToChange <- findById C es modifiedBid 0 ;;
           let removeIndex :=
             match auctionToChange with
             | Some i => Some i
             | None => indexOfUndefined es 0
             end in
           match removeIndex with
           | Some i =>
               o <- writeProp auction "bidHistory" (VArr (removeAt i es)) ;;
               Done (o, calls ++ [MarkModified (VStr "bidHistory")])
           | None => Done (auction, calls)
           end)
        with
        | Raise e => mkRun (Threw e) calls auction
        | Unmodelled => mkRun OutOfModel calls auction
        | Done (auction', calls') =>
            if negb saveEnabled
            then mkRun (Responded 500 auction') calls' auction'
            else
              match save C auction' with
              | Failed m =>
                  (* the callback sends [savedAuction], which is undefined *)
                  mkRun (Responded 500 VUndefined) (calls' ++ [Save auction']) auction'
              | Returned savedAuction =>
                  mkRun (Responded 200 savedAuction) (calls' ++ [Save auction']) auction'
              end
        end
  end.

(** *** changeEmailStatus *)

(** The first [forEach]: every notification gets a new [email.status];
    [reads] counts the clock readings. *)
Fixpoint stampEach (newStatus : value) (reads : nat) (notifications : list value)
  : result (list value) :=
  match notifications with
  | [] => Done []
  | notification :: rest =>
      if nullish notification || nullish (getProp notification "email")
      then Raise TypeError
      else
        email <- writeProp (getProp notification "email") "status"
                   (VObj [("code", newStatus); ("date", VDate (clock C reads))]) ;;
        n <- writeProp notification "email" email ;;
        ns <- stampEach newStatus (S reads) rest ;;
        Done (n :: ns)
  end.

Definition changeEmailStatus (saveEnabled : bool) (query newStatus : value)
  : run :=
  if negb (truthy newStatus)
  then mkRun (Responded 400 (VObj [("gigitError", VStr "New status not found!")]))
         [] VUndefined
  else
    let calls := [Find query] in
    match find C query with
    | Failed m => mkRun (Responded 500 (VError m)) calls VUndefined
    | Returned notifications =>
        match (ns <- elementsOf notifications ;; stampEach newStatus 0 ns) with
        | Raise e => mkRun (Threw e) calls notifications
        | Unmodelled => mkRun OutOfModel calls notifications
        | Done ns =>
            let marks := map (fun _ => MarkModified (VStr "email")) ns in
            let saves := if saveEnabled then map Save ns else [] in
            mkRun (Responded 200 (VArr ns)) (calls ++ marks ++ saves) (VArr ns)
        end
  end.

(** *** countUsers and countSpaces *)

(** The [forEach] of [countUsers]: the numbers of users and of groups. *)
Fixpoint tallyUsers (numberUsers numberGroups : Z) (users : list value)
  : result (Z * Z) :=
  match users with
  | [] => Done (numberUsers, numberGroups)
  | user :: rest =>
      if nullish user then Raise TypeError
      else
        match getProp user "type" with
        | VStr "company" => tallyUsers numberUsers (numberGroups + 1) rest
        | _ => tallyUsers (numberUsers + 1) numberGroups rest
        end
  end.

(** [countUsers()]: the value the promise resolves with, or its rejection. *)
Definition countUsers : result value :=
  match find C (VObj []) with
  | Failed m => Raise (StoreFailure m)
  | Returned users =>
      us <- elementsOf users ;;
      t <- tallyUsers 0 0 us ;;
      Done (VObj [("numberUsers", VNum (fst t)); ("numberGroups", VNum (snd t))])
  end.

(** [bookings.some(booking => booking.bookingType === "rental")] *)
Fixpoint someRental (bookings : list value) : result bool :=
  match bookings with
  | [] => Done false
  | booking :: rest =>
      if nullish booking then Raise TypeError
      else
        match getProp booking "bookingType" with
        | VStr "rental" => Done true
        | _ => someRental rest
        end
  end.

Fixpoint tallySpaces (rented available : Z) (spaces : list value)
  : result (Z * Z) :=
  match spaces with
  | [] => Done (rented, available)
  | currentSpace :: rest =>
      if nullish currentSpace then Raise TypeError
      else
        bookings <- elementsOf (getProp currentSpace "client_bookings") ;;
        hasRental <- someRental bookings ;;
        if hasRental then tallySpaces (rented + 1) (available + 1) rest
        else tallySpaces rented available rest
  end.

Definition countSpaces : result value :=
  match find C (VObj []) with
  | Failed m => Raise (StoreFailure m)
  | Returned spaces =>
      ss <- elementsOf spaces ;;
      t <- tallySpaces 0 0 ss ;;
      Done (VObj [("numberSpacesCreated", VNum (Z.of_nat (List.length ss)));
                  ("numberSpacesRented", VNum (fst t));
                  ("numberSpacesAvailable", VNum (snd t))])
  end.

End MoreHandlers.

(** * Properties *)

(** ** Strings and association lists *)

Lemma splitDots_nonempty (s : string) : splitDots s <> [].
Proof.
  destruct s as [|c rest]; simpl; [discriminate|].
  destruct (splitDots rest); [discriminate|].
  destruct (Ascii.eqb c dot); discriminate.
Qed.

Lemma splitDots_no_dot (s seg : string) :
  In seg (splitDots s) -> hasDot seg = false.
Proof.
  revert seg. induction s as [|c rest IH]; simpl; intros seg H.
  - destruct H as [<-|[]]. reflexivity.
  - destruct (splitDots rest) as [|seg0 segs] eqn:E.
    + exfalso. now apply (splitDots_nonempty rest).
    + destruct (Ascii.eqb c dot) eqn:Ec.
      * destruct H as [<-|H]; [reflexivity|]. now apply IH.
      * destruct H as [<-|H].
        -- simpl. rewrite Ec. apply IH. now left.
        -- apply IH. now right.
Qed.

Lemma assocGet_assocSet_same fs k v : assocGet (assocSet fs k v) k = Some v.
Proof.
  induction fs as [|[k' v'] rest IH]; simpl.
  - now rewrite String.eqb_refl.
  - destruct (String.eqb k' k) eqn:E; simpl; rewrite E; auto.
Qed.

Lemma assocGet_assocSet_other fs k k' v :
  k' <> k -> assocGet (assocSet fs k v) k' = assocGet fs k'.
Proof.
  intros Hne. induction fs as [|[k0 v0] rest IH]; simpl.
  - destruct (String.eqb k k') eqn:E; [|reflexivity].
    apply String.eqb_eq in E. congruence.
  - destruct (String.eqb k0 k) eqn:E; simpl.
    + apply String.eqb_eq in E. subst k0.
      destruct (String.eqb k k') eqn:E'; [|reflexivity].
      apply String.eqb_eq in E'. congruence.
    + now rewrite IH.
Qed.

Lemma nth_writeNth_same es i v : nth i (writeNth es i v) VUndefined = v.
Proof.
  revert es. induction i as [|i IH]; intros [|e rest]; simpl; auto.
Qed.




Lemma assocSet_assocSet fs k v w : assocSet (assocSet fs k v) k w = assocSet fs k w.
Proof.
  induction fs as [|[k' v'] rest IH]; simpl.
  - now rewrite String.eqb_refl.
  - destruct (String.eqb k' k) eqn:E; simpl; rewrite E; [reflexivity|].
    now rewrite IH.
Qed.


(** ** The lodash path functions *)

Module LodashFacts.
Import Lodash.

(** *** The keys of a path string are shorter than the string *)

Lemma plainRun_length s :
  String.length (fst (plainRun s)) + String.length (snd (plainRun s)) =
    String.length s.
Proof.
  induction s as [|c rest IH]; cbn [plainRun]; [reflexivity|].
  destruct (special c); cbn [fst snd String.length]; lia.
Qed.

Lemma plainRun_special s :
  hasSpecial s = hasSpecial (snd (plainRun s)).
Proof.
  induction s as [|c rest IH]; cbn [plainRun]; [reflexivity|].
  destruct (special c) eqn:E; cbn [fst snd hasSpecial]; rewrite E; auto.
Qed.

Lemma digitRun_length s :
  String.length (fst (digitRun s)) + String.length (snd (digitRun s)) =
    String.length s.
Proof.
  induction s as [|c rest IH]; cbn [digitRun]; [reflexivity|].
  destruct (isDigit c); cbn [fst snd String.length]; lia.
Qed.

Lemma append_length (a b : string) :
  String.length (a ++ b) = String.length a + String.length b.
Proof. induction a as [|c a IH]; cbn; [reflexivity|now rewrite IH]. Qed.

Lemma bracketNumber_length s t after :
  bracketNumber s = Some (t, after) ->
  String.length t + String.length after < String.length s.
Proof.
  unfold bracketNumber.
  set (signed := match s with
                 | String c rest =>
                     if Ascii.eqb c minusSign then (String c EmptyString, rest)
                     else (EmptyString, s)
                 | EmptyString => (EmptyString, s)
                 end).
  assert (Hs : String.length (fst signed) + String.length (snd signed) =
               String.length s).
  { subst signed. destruct s as [|c rest]; [reflexivity|].
    destruct (Ascii.eqb c minusSign); cbn; lia. }
  pose proof (digitRun_length (snd signed)) as Hd.
  destruct (fst (digitRun (snd signed))) as [|d ds] eqn:Ed; [discriminate|].
  set (fraction := match snd (digitRun (snd signed)) with
                   | String c rest =>
                       if Ascii.eqb c dot then
                         match fst (digitRun rest) with
                         | EmptyString =>
                             (EmptyString, snd (digitRun (snd signed)))
                         | ds0 => (String c ds0, snd (digitRun rest))
                         end
                       else (EmptyString, snd (digitRun (snd signed)))
                   | EmptyString => (EmptyString, snd (digitRun (snd signed)))
                   end).
  assert (Hf : String.length (fst fraction) + String.length (snd fraction) =
               String.length (snd (digitRun (snd signed)))).
  { subst fraction. destruct (snd (digitRun (snd signed))) as [|c rest];
      [reflexivity|].
    destruct (Ascii.eqb c dot); [|reflexivity].
    pose proof (digitRun_length rest) as Hr.
    destruct (fst (digitRun rest)); cbn in *; lia. }
  destruct (snd fraction) as [|c after0] eqn:Ea; [discriminate|].
  destruct (Ascii.eqb c closeBracket); [|discriminate].
  intros [= <- <-]. rewrite !append_length.
  clearbody signed fraction. cbn [String.length String.append] in *.
  rewrite append_length. lia.
Qed.

Lemma quotedBody_length q s : forall body after,
  quotedBody q s = Some (body, after) ->
  String.length body + String.length after < String.length s.
Proof.
  remember (String.length s) as n eqn:Hn.
  revert s Hn. induction n as [n IH] using lt_wf_ind.
  intros s Hn body after. destruct s as [|c rest]; [discriminate|].
  cbn [quotedBody]. destruct (Ascii.eqb c q).
  { intros [= <- <-]. cbn in *. lia. }
  destruct (Ascii.eqb c backslash).
  - destruct rest as [|c' rest']; [discriminate|].
    destruct (lineEnd c'); [discriminate|].
    destruct (quotedBody q rest') as [[b a]|] eqn:E; [|discriminate].
    intros [= <- <-].
    assert (Hlt : String.length rest' < n) by (subst n; cbn; lia).
    pose proof (IH _ Hlt rest' eq_refl b a E). cbn in *. lia.
  - destruct (quotedBody q rest) as [[b a]|] eqn:E; [|discriminate].
    intros [= <- <-].
    assert (Hlt : String.length rest < n) by (subst n; cbn; lia).
    pose proof (IH _ Hlt rest eq_refl b a E). cbn in *. lia.
Qed.

Lemma unescape_length s : String.length (unescape s) <= String.length s.
Proof.
  remember (String.length s) as n eqn:Hn.
  revert s Hn. induction n as [n IH] using lt_wf_ind.
  intros s Hn. destruct s as [|c rest]; [cbn; lia|].
  cbn [unescape]. destruct (Ascii.eqb c backslash).
  - destruct rest as [|c' rest']; [cbn; lia|].
    destruct (Ascii.eqb c' backslash).
    + assert (Hlt : String.length rest' < n) by (subst n; cbn; lia).
      pose proof (IH _ Hlt rest' eq_refl). subst n. cbn in *. lia.
    + assert (Hlt : String.length (String c' rest') < n) by (subst n; cbn; lia).
      pose proof (IH _ Hlt (String c' rest') eq_refl). subst n. cbn in *. lia.
  - assert (Hlt : String.length rest < n) by (subst n; cbn; lia).
    pose proof (IH _ Hlt rest eq_refl). subst n. cbn in *. lia.
Qed.

Lemma bracketQuoted_length s t after :
  bracketQuoted s = Some (t, after) ->
  String.length t + String.length after < String.length s.
Proof.
  unfold bracketQuoted. destruct s as [|q rest]; [discriminate|].
  destruct (Ascii.eqb q doubleQuote || Ascii.eqb q singleQuote); [|discriminate].
  destruct (quotedBody q rest) as [[body [|c after0]]|] eqn:E; try discriminate.
  destruct (Ascii.eqb c closeBracket); [|discriminate].
  intros [= <- <-]. apply quotedBody_length in E.
  pose proof (unescape_length body). cbn in *. lia.
Qed.

Lemma bracketToken_length s t after :
  bracketToken s = Some (t, after) ->
  String.length t + String.length after < String.length s.
Proof.
  unfold bracketToken. destruct (bracketNumber s) as [[t0 a0]|] eqn:E.
  - intros [= <- <-]. now apply bracketNumber_length.
  - apply bracketQuoted_length.
Qed.

Lemma scanPath_length fuel : forall s t,
  In t (scanPath fuel s) ->
  String.length t <= String.length s /\
  (hasSpecial s = true -> String.length t < String.length s).
Proof.
  induction fuel as [|fuel IH]; intros s t Hin; [destruct Hin|].
  destruct s as [|c rest]; [destruct Hin|].
  cbn [scanPath] in Hin. destruct (special c) eqn:Ec; cbn [negb] in Hin.
  - assert (Hrest : forall t0 s0, In t0 (scanPath fuel s0) ->
              String.length s0 <= String.length rest ->
              String.length t0 < String.length (String c rest)).
    { intros t0 s0 H0 Hle. destruct (IH s0 t0 H0) as [H1 _]. cbn. lia. }
    assert (Hgoal : String.length t < String.length (String c rest)).
    { destruct (if Ascii.eqb c openBracket then bracketToken rest else None)
        as [[token after]|] eqn:Et.
      - destruct (Ascii.eqb c openBracket); [|discriminate].
        apply bracketToken_length in Et.
        destruct Hin as [<-|Hin]; [cbn; lia|].
        apply (Hrest _ _ Hin). lia.
      - destruct (emptySegmentAt (String c rest)).
        + destruct Hin as [<-|Hin]; [cbn; lia|]. now apply (Hrest _ _ Hin).
        + now apply (Hrest _ _ Hin). }
    split; [lia|auto].
  - pose proof (plainRun_length (String c rest)) as Hlen.
    pose proof (plainRun_special (String c rest)) as Hsp.
    cbn [plainRun] in Hin, Hlen, Hsp. rewrite Ec in Hin, Hlen, Hsp.
    cbn [fst snd] in Hin, Hlen, Hsp.
    destruct Hin as [<-|Hin].
    + split; [cbn in *; lia|]. intros Hs. rewrite Hsp in Hs.
      destruct (snd (plainRun rest)); [discriminate|]. cbn in *. lia.
    + destruct (IH _ _ Hin) as [H1 _]. cbn in *. split; [lia|]. intros _. lia.
Qed.

Lemma stringToPath_shorter p t :
  hasSpecial p = true -> In t (stringToPath p) ->
  String.length t < String.length p.
Proof.
  intros Hs Hin. unfold stringToPath in Hin.
  destruct p as [|c rest]; [destruct Hin|].
  assert (Hscan : In t (scanPath (String.length (String c rest)) (String c rest)) ->
                  String.length t < String.length (String c rest)).
  { intros H. now apply (scanPath_length _ _ _ H). }
  destruct (Ascii.eqb c dot); [|now apply Hscan].
  destruct Hin as [<-|Hin]; [cbn; lia|now apply Hscan].
Qed.

Lemma isDeepProp_special s : isDeepProp s = true -> hasSpecial s = true.
Proof.
  induction s as [|c rest IH]; cbn [isDeepProp hasSpecial]; [discriminate|].
  unfold special. destruct (Ascii.eqb c dot); [reflexivity|].
  destruct (Ascii.eqb c openBracket); [reflexivity|]. cbn.
  intros H. rewrite (IH H). now rewrite orb_true_r.
Qed.

(** The length of the string is fuel enough for [scanPath]. *)
Lemma scanPath_enough_fuel n : forall m s,
  String.length s <= n -> String.length s <= m ->
  scanPath n s = scanPath m s.
Proof.
  induction n as [|n IH]; intros m s Hn Hm.
  - destruct s; [|cbn in Hn; lia]. now destruct m.
  - destruct s as [|c rest]; [now destruct m|].
    destruct m as [|m]; [cbn in Hm; lia|].
    cbn [scanPath]. destruct (special c) eqn:Ec; cbn [negb].
    + destruct (if Ascii.eqb c openBracket then bracketToken rest else None)
        as [[token after]|] eqn:Et.
      * destruct (Ascii.eqb c openBracket); [|discriminate].
        apply bracketToken_length in Et. f_equal.
        apply IH; cbn in *; lia.
      * assert (Hrest : scanPath n rest = scanPath m rest)
          by (apply IH; cbn in *; lia).
        now rewrite Hrest.
    + f_equal. pose proof (plainRun_length (String c rest)) as Hlen.
      cbn [plainRun] in *. rewrite Ec in *. cbn [fst snd] in *.
      apply IH; cbn in *; lia.
Qed.

(** *** Reading and writing along a path *)

Lemma baseSet_record fs k ks v o :
  baseSet (VObj fs) (k :: ks) v = Some o ->
  o = VObj fs \/ exists child, o = VObj (assocSet fs k child).
Proof.
  cbn [baseSet]. destruct (guardedKey k); [intros [= <-]; now left|].
  destruct ks as [|k' rest].
  - intros [= <-]. right. now exists v.
  - destruct (read (VObj fs) k) as [objValue|]; [|discriminate].
    destruct (baseSet _ (k' :: rest) v) as [child|]; [|discriminate].
    intros [= <-]. right. now exists child.
Qed.

(** [_.set] does not change how the path string is read. *)
Lemma castPath_after_baseSet fs p v o :
  baseSet (VObj fs) (castPath p (VObj fs)) v = Some o ->
  castPath p o = castPath p (VObj fs).
Proof.
  intros Hset. unfold castPath in *.
  destruct (isKey p (VObj fs)) eqn:Hk.
  - unfold isKey in *.
    destruct (isPlainProp p || negb (isDeepProp p)) eqn:Hp; [reflexivity|].
    cbn [orb nullish negb andb] in Hk.
    assert (Hg : guardedKey p = false).
    { apply orb_false_iff in Hp as [Hp _]. unfold guardedKey.
      destruct (String.eqb_spec p "__proto__") as [->|_]; [discriminate|].
      destruct (String.eqb_spec p "constructor") as [->|_]; [discriminate|].
      destruct (String.eqb_spec p "prototype") as [->|_]; [discriminate|].
      reflexivity. }
    cbn [baseSet] in Hset. rewrite Hg in Hset. cbn [setProp] in Hset.
    injection Hset as <-. cbn [nullish negb andb orb hasOwn].
    now rewrite assocGet_assocSet_same.
  - unfold isKey in *.
    apply orb_false_iff in Hk as [Hp Hown].
    apply orb_false_iff in Hp as [Hplain Hdeep].
    apply negb_false_iff in Hdeep. rewrite Hplain, Hdeep.
    cbn [orb negb nullish andb] in Hown |- *.
    destruct (stringToPath p) as [|k ks] eqn:Ep.
    + cbn in Hset. injection Hset as <-. cbn [nullish negb andb].
      now rewrite Hown.
    + destruct (baseSet_record _ _ _ _ _ Hset) as [->|[child ->]];
        cbn [nullish negb andb]; [now rewrite Hown|].
      assert (Hne : p <> k).
      { intros ->.
        pose proof (stringToPath_shorter k k (isDeepProp_special _ Hdeep)) as H.
        rewrite Ep in H. specialize (H (or_introl eq_refl)). lia. }
      cbn [hasOwn] in Hown |- *.
      now rewrite (assocGet_assocSet_other _ _ _ _ Hne), Hown.
Qed.






(** The default of [_.get] only matters when nothing is resolved. *)
Lemma get_default o p d w :
  get o p VUndefined = Some w -> w <> VUndefined -> get o p d = Some w.
Proof.
  unfold get. destruct (nullish o); [congruence|].
  destruct (baseGet o (castPath p o)) as [[]|]; congruence.
Qed.

End LodashFacts.
(** ** genericChangeField *)

Section ChangeFacts.

Variable C : Collaborators.




(** C2.  When the path [p] holds a value [w] that is not an array, the
    change [{p: {$push: v}}] throws the error "p is not an array" (the
    type mismatch of the specification) before anything is written: the
    state of the handler is the one before the change, so the document is
    unmodified and no [markModified] call is made.  A request that carries
    this single change ends with that error, the document as it was
    fetched, and no call besides [findOne]. *)
Theorem push_on_non_array_fails :
  forall (st : changeState) fs p v w,
    object st = VObj fs ->
    Lodash.has (VObj fs) p = true ->
    Lodash.get (VObj fs) p VUndefined = Some w ->
    w <> VUndefined ->
    isArray w = false ->
    applyChange C st p (VObj [("$push", v)]) =
      Abort st (HttpError 500 (p ++ " is not an array")) /\
    (forall q saveEnabled, findOne C q = Returned (VObj fs) ->
       genericChangeField C saveEnabled q (VObj [(p, VObj [("$push", v)])]) =
         mkRun (Threw (HttpError 500 (p ++ " is not an array")))
           [FindOne q] (VObj fs)).
Proof.
  intros st fs p v w Hobj Hhas Hget Hw Harr.
  assert (Hstep : forall st', object st' = VObj fs ->
            applyChange C st' p (VObj [("$push", v)]) =
              Abort st' (HttpError 500 (p ++ " is not an array"))).
  { intros st' Hobj'. unfold applyChange. cbn.
    unfold pushChange. rewrite Hobj', Hhas. cbv beta iota zeta.
    rewrite Hobj'.
    rewrite (LodashFacts.get_default _ _ v w Hget Hw), Hget, Harr. reflexivity. }
  split; [now apply Hstep|].
  intros q saveEnabled Hfind. unfold genericChangeField. rewrite Hfind.
  cbn [ownEntries ownFields filter applyChanges].
  now rewrite (Hstep (mkState (VObj fs) 0 [FindOne q]) eq_refl).
Qed.


End ChangeFacts.



(** The theorem of C2 on [{items: [5]}] and the path ["items[0]"]. *)
Lemma push_on_non_array_example :
  let D := VObj [("items", VArr [VNum 5])] in
  applyChange (singleDocument D) (mkState D 0 []) "items[0]"
    (VObj [("$push", VStr "c")]) =
    Abort (mkState D 0 []) (HttpError 500 "items[0] is not an array") /\
  genericChangeField (singleDocument D) true (VObj [])
    (VObj [("items[0]", VObj [("$push", VStr "c")])]) =
    mkRun (Threw (HttpError 500 "items[0] is not an array"))
      [FindOne (VObj [])] D.
Proof.
  destruct (push_on_non_array_fails
              (singleDocument (VObj [("items", VArr [VNum 5])]))
              (mkState (VObj [("items", VArr [VNum 5])]) 0 [])
              [("items", VArr [VNum 5])] "items[0]" (VStr "c") (VNum 5)
              eq_refl eq_refl eq_refl ltac:(discriminate) eq_refl)
    as (Hstep & Hrun).
  split; [exact Hstep|]. exact (Hrun (VObj []) true eq_refl).
Defined.


(** ** addArrayDuplicates *)

Module HeapFacts.
Import Heap.

Lemma lookup_old (h extra : heap) l :
  l < List.length h -> lookup (h ++ extra) l = lookup h l.
Proof. intros Hl. unfold lookup. now apply nth_error_app1. Qed.

Lemma lookup_bound (h : heap) l c : lookup h l = Some c -> l < List.length h.
Proof. intros H. apply nth_error_Some. unfold lookup in H. congruence. Qed.

Lemma lookup_setCell_same (h : heap) l c :
  l < List.length h -> lookup (setCell h l c) l = Some c.
Proof.
  revert l. induction h as [|c0 rest IH]; intros [|l] Hl; simpl in *; try lia.
  - reflexivity.
  - apply IH. lia.
Qed.

Lemma lookup_setCell_other (h : heap) a l c :
  l <> a -> lookup (setCell h a c) l = lookup h l.
Proof.
  revert a l. induction h as [|c0 rest IH]; intros [|a] [|l] Hne; simpl;
    try reflexivity; try congruence.
  apply IH. congruence.
Qed.

Lemma setCell_length (h : heap) a c : List.length (setCell h a c) = List.length h.
Proof.
  revert a. induction h as [|c0 rest IH]; intros [|a]; simpl; auto.
Qed.

(** Allocation does not change what an existing value owns. *)
Lemma ownProperties_old (h extra : heap) v props :
  ownProperties h v = Done props -> ownProperties (h ++ extra) v = Done props.
Proof.
  destruct v as [a|l]; simpl; [tauto|].
  destruct (lookup h l) as [c|] eqn:E; [|discriminate].
  now rewrite (lookup_old h extra l (lookup_bound _ _ _ E)), E.
Qed.

Lemma copyable_old (h extra : heap) v :
  copyable h v = true -> copyable (h ++ extra) v = true.
Proof.
  unfold copyable. destruct (ownProperties h v) as [props| |] eqn:E;
    try discriminate.
  now rewrite (ownProperties_old _ extra _ _ E).
Qed.

(** The copies are appended to the heap, one new object per element, in
    the order of the elements. *)
Lemma copyEach_copies es : forall h,
  forallb (copyable h) es = true ->
  exists copies,
    copyEach h es = Done (h ++ copies, map Ref (seq (List.length h) (List.length es))) /\
    forall i e, nth_error es i = Some e ->
      exists props, ownProperties h e = Done props /\
                    nth_error copies i = Some (ObjectCell props).
Proof.
  induction es as [|e rest IH]; intros h Hall.
  - exists []. split; [simpl; now rewrite app_nil_r|].
    intros [|i] e0; discriminate.
  - simpl in Hall. apply andb_true_iff in Hall as [He Hrest].
    unfold copyable in He.
    destruct (ownProperties h e) as [props| |] eqn:Ee; try discriminate.
    assert (Hrest' : forallb (copyable (h ++ [ObjectCell props])) rest = true).
    { apply forallb_forall. intros x Hx. apply copyable_old.
      now apply (proj1 (forallb_forall _ _) Hrest). }
    destruct (IH _ Hrest') as (copies & Hcopy & Hnth).
    exists (ObjectCell props :: copies). split.
    + simpl. rewrite Ee. simpl. rewrite Hcopy. simpl.
      rewrite <- app_assoc. simpl.
      rewrite length_app. simpl. now rewrite Nat.add_1_r.
    + intros [|i] e0 Hi; simpl in Hi.
      * injection Hi as <-. now exists props.
      * destruct (Hnth i e0 Hi) as (props0 & Hp & Hc).
        assert (Hx : copyable h e0 = true).
        { apply (proj1 (forallb_forall _ _) Hrest).
          now apply nth_error_In with i. }
        unfold copyable in Hx.
        destruct (ownProperties h e0) as [props1| |] eqn:E1; try discriminate.
        rewrite (ownProperties_old _ [ObjectCell props] _ _ E1) in Hp.
        injection Hp as <-. now exists props1.
Qed.

Lemma plainObject_cell (h : heap) v :
  plainObject h v = true ->
  exists l fs, v = Ref l /\ lookup h l = Some (ObjectCell fs) /\
               ownProperties h v = Done fs.
Proof.
  destruct v as [x|l]; simpl; [discriminate|].
  destruct (lookup h l) as [[es|fs]|] eqn:E; try discriminate.
  intros _. now exists l, fs.
Qed.

Lemma plainObject_copyable (h : heap) es :
  forallb (plainObject h) es = true -> forallb (copyable h) es = true.
Proof.
  intros H. apply forallb_forall. intros x Hx.
  destruct (plainObject_cell h x (proj1 (forallb_forall _ _) H x Hx))
    as (l & fs & _ & _ & Hown).
  unfold copyable. now rewrite Hown.
Qed.

(** C3 (as amended).  When the field holds an array [es] whose elements
    are all plain objects (no array, no scalar, no ObjectId or date among
    them), the handler leaves in that array the elements of [es]
    followed by as many references to new cells
    ([List.length es * 2] elements in all).  The i-th new cell is not a
    cell of the fetched document, so it is another object than the i-th
    element, and it is an object with the fields of that element: the
    same keys, and under every key the same value.  The copy is one level
    deep: a value that is itself a reference is the same reference in the
    element and in its duplicate.  No other cell of the fetched document
    changes, and the field is marked as modified. *)
Theorem duplicates_are_shallow_copies :
  forall dateString (S : Store) saveEnabled query arrayField h object a es,
    fetch S query = Fetched h object ->
    hnullish object = false ->
    hgetProp h object (jsToString dateString arrayField) = Ref a ->
    lookup h a = Some (ArrayCell es) ->
    forallb (plainObject h) es = true ->
    let r := addArrayDuplicates dateString S saveEnabled query arrayField in
    let doubled := es ++ map Ref (seq (List.length h) (List.length es)) in
    lookup (memory r) a = Some (ArrayCell doubled) /\
    List.length doubled = List.length es * 2 /\
    (forall i e, nth_error es i = Some e ->
       exists l fs,
         e = Ref l /\ l < List.length h /\ l <> List.length h + i /\
         lookup (memory r) l = Some (ObjectCell fs) /\
         lookup (memory r) (List.length h + i) = Some (ObjectCell fs) /\
         (forall k, hgetProp (memory r) (Ref (List.length h + i)) k =
                    hgetProp (memory r) e k)) /\
    (forall l, l < List.length h -> l <> a -> lookup (memory r) l = lookup h l) /\
    In (MarkModified arrayField) (trace (result r)).
Proof.
  intros dateString S saveEnabled query arrayField h object a es
    Hfetch Hobj Hfield Harr Hall r doubled.
  destruct (copyEach_copies es h (plainObject_copyable h es Hall))
    as (copies & Hcopy & Hnth).
  pose proof (lookup_bound _ _ _ Harr) as Ha.
  assert (Hmem : memory r = setCell (h ++ copies) a (ArrayCell doubled)).
  { unfold r, addArrayDuplicates.
    rewrite Hfetch, Hobj, Hfield, Harr, Hcopy.
    destruct saveEnabled; simpl; [destruct (persist S _ object)|]; reflexivity. }
  assert (Htrace : In (MarkModified arrayField) (trace (result r))).
  { unfold r, addArrayDuplicates.
    rewrite Hfetch, Hobj, Hfield, Harr, Hcopy.
    destruct saveEnabled; simpl; [destruct (persist S _ object)|]; simpl; auto. }
  assert (Hold : forall l, l < List.length h -> l <> a ->
            lookup (setCell (h ++ copies) a (ArrayCell doubled)) l = lookup h l).
  { intros l Hl Hne. rewrite lookup_setCell_other by exact Hne.
    now apply lookup_old. }
  rewrite Hmem. repeat split.
  - apply lookup_setCell_same. rewrite length_app. lia.
  - unfold doubled. rewrite length_app, length_map, length_seq. lia.
  - intros i e Hi. destruct (Hnth i e Hi) as (props & Hp & Hc).
    assert (He : plainObject h e = true).
    { apply (proj1 (forallb_forall _ _) Hall). now apply nth_error_In with i. }
    destruct (plainObject_cell h e He) as (l & fs & -> & Hl & Hown).
    rewrite Hown in Hp. injection Hp as <-.
    pose proof (lookup_bound _ _ _ Hl) as Hlt.
    assert (Hla : l <> a) by (intros ->; rewrite Harr in Hl; discriminate).
    assert (Hnew : lookup (setCell (h ++ copies) a (ArrayCell doubled))
                     (List.length h + i) = Some (ObjectCell fs)).
    { rewrite lookup_setCell_other by lia.
      unfold lookup. rewrite nth_error_app2 by lia.
      now replace (List.length h + i - List.length h) with i by lia. }
    exists l, fs. repeat split; try lia.
    + now rewrite Hold, Hl.
    + exact Hnew.
    + intros k. unfold hgetProp. now rewrite Hnew, Hold, Hl.
  - exact Hold.
  - exact Htrace.
Qed.

End HeapFacts.

(** C3, on the document [{tags: [{a: {b: 1}}, 5]}].  The array is doubled,
    but the duplicate (cell 4) of the first element (cell 1) holds under
    [a] the very object (cell 0) that the element holds, and the duplicate
    (cell 5) of the number 5 is an object without properties. *)
Lemma duplicate_shares_nested_object :
  let r := Heap.addArrayDuplicates (fun _ => EmptyString) taggedStore false
             (VObj []) (VStr "tags") in
  Heap.lookup (Heap.memory r) 2 =
    Some (Heap.ArrayCell [Heap.Ref 1; Heap.Atom (Heap.ANum 5);
                          Heap.Ref 4; Heap.Ref 5]) /\
  Heap.hgetProp (Heap.memory r) (Heap.Ref 1) "a" = Heap.Ref 0 /\
  Heap.hgetProp (Heap.memory r) (Heap.Ref 4) "a" = Heap.Ref 0 /\
  Heap.aliased (Heap.memory r) (Heap.Ref 1) (Heap.Ref 4) = true /\
  Heap.lookup (Heap.memory r) 5 = Some (Heap.ObjectCell []).
Proof. repeat split. Qed.

(** The theorem of C3 on the document [{tags: [{a: {b: 1}}, {c: 2}]}]:
    the duplicates are the cells 5 and 6. *)
Lemma duplicates_example :
  let r := Heap.addArrayDuplicates (fun _ => EmptyString) labelledStore false
             (VObj []) (VStr "tags") in
  let doubled := [Heap.Ref 1; Heap.Ref 2] ++ map Heap.Ref (seq 5 2) in
  Heap.lookup (Heap.memory r) 3 = Some (Heap.ArrayCell doubled) /\
  List.length doubled = 2 * 2 /\
  (forall i e, nth_error [Heap.Ref 1; Heap.Ref 2] i = Some e ->
     exists l fs,
       e = Heap.Ref l /\ l < 5 /\ l <> 5 + i /\
       Heap.lookup (Heap.memory r) l = Some (Heap.ObjectCell fs) /\
       Heap.lookup (Heap.memory r) (5 + i) = Some (Heap.ObjectCell fs) /\
       (forall k, Heap.hgetProp (Heap.memory r) (Heap.Ref (5 + i)) k =
                  Heap.hgetProp (Heap.memory r) e k)) /\
  (forall l, l < 5 -> l <> 3 ->
     Heap.lookup (Heap.memory r) l = Heap.lookup labelledHeap l) /\
  In (MarkModified (VStr "tags")) (trace (Heap.result r)).
Proof.
  exact (HeapFacts.duplicates_are_shallow_copies (fun _ => EmptyString)
           labelledStore false (VObj []) (VStr "tags") labelledHeap (Heap.Ref 4) 3
           [Heap.Ref 1; Heap.Ref 2]
           eq_refl eq_refl eq_refl eq_refl eq_refl).
Defined.

(** ** Dry runs *)

Section DryRun.

Variable C : Collaborators.

Lemma writes_app {D : Type} (a b : list (eventOf D)) :
  writes (a ++ b) = writes a ++ writes b.
Proof. apply filter_app. Qed.

Lemma setAt_calls st p v st1 : setAt st p v = Some st1 -> calls st1 = calls st.
Proof.
  unfold setAt. destruct (Lodash.set (object st) p v); [|discriminate].
  now intros [= <-].
Qed.

Lemma markModified_writes st f :
  writes (calls st) = [] ->
  match markModified st f with
  | Next st1 | Abort st1 _ => writes (calls st1) = []
  | Leave => True
  end.
Proof.
  intros H. unfold markModified. destruct (nullish (object st)); cbn [calls]; auto.
  now rewrite writes_app, H.
Qed.

Lemma pushChange_writes st p v :
  writes (calls st) = [] ->
  match pushChange st p v with
  | Next st1 | Abort st1 _ => writes (calls st1) = []
  | Leave => True
  end.
Proof.
  intros H. unfold pushChange.
  assert (Hgen : forall st0, writes (calls st0) = [] ->
            match
              match Lodash.get (object st0) p v,
                    Lodash.get (object st0) p VUndefined with
              | Some arr, Some stored =>
                  if negb (isArray arr)
                  then Abort st0 (HttpError 500 (p ++ " is not an array"))
                  else
                    match stored with
                    | VUndefined => Next st0
                    | _ =>
                        Next (mkState
                                (updateAt (object st0)
                                   (Lodash.castPath p (object st0)) (arrayPush v))
                                (reads st0) (calls st0))
                    end
              | _, _ => Leave
              end
            with
            | Next st1 | Abort st1 _ => writes (calls st1) = []
            | Leave => True
            end).
  { intros st0 H0.
    destruct (Lodash.get (object st0) p v) as [arr|]; [|exact I].
    destruct (Lodash.get (object st0) p VUndefined) as [stored|]; [|exact I].
    destruct (negb (isArray arr)); [exact H0|].
    destruct stored; exact H0. }
  destruct (Lodash.has (object st) p); [now apply Hgen|].
  destruct (setAt st p (VArr [])) as [st1|] eqn:E; [|exact I].
  apply Hgen. now rewrite (setAt_calls _ _ _ _ E).
Qed.

(** No change of [genericChangeField] writes to the store. *)
Lemma applyChange_writes st p change :
  writes (calls st) = [] ->
  match applyChange C st p change with
  | Next st1 | Abort st1 _ => writes (calls st1) = []
  | Leave => True
  end.
Proof.
  intros H. unfold applyChange.
  destruct (negb (typeofObject change)); [exact H|].
  destruct (ownEntries change) as [[|[changeType v] [|? ?]]|e|]; try exact H;
    try exact I.
  set (mark := fun changed : step =>
                 match changed with
                 | Next st1 => markModified st1 (firstSegment p)
                 | other => other
                 end).
  assert (Hmark : forall changed,
             match changed with
             | Next st1 | Abort st1 _ => writes (calls st1) = []
             | Leave => True
             end ->
             match mark changed with
             | Next st1 | Abort st1 _ => writes (calls st1) = []
             | Leave => True
             end).
  { intros [st1|st1 e|] Hc; simpl; auto. now apply markModified_writes. }
  apply Hmark.
  destruct (String.eqb changeType "$set").
  { destruct (setAt st p v) as [st1|] eqn:E; [|exact I].
    now rewrite (setAt_calls _ _ _ _ E). }
  destruct (String.eqb changeType "$setid").
  { destruct (ObjectId C v) as [hex|]; [|exact H].
    destruct (setAt st p (VId hex)) as [st1|] eqn:E; [|exact I].
    now rewrite (setAt_calls _ _ _ _ E). }
  destruct (String.eqb changeType "$setstatus").
  { destruct (setAt _ p _) as [st1|] eqn:E; [|exact I].
    now rewrite (setAt_calls _ _ _ _ E). }
  destruct (String.eqb changeType "$push"); [|exact H].
  now apply pushChange_writes.
Qed.

Lemma applyChanges_writes entries : forall st,
  writes (calls st) = [] ->
  match applyChanges C st entries with
  | Next st1 | Abort st1 _ => writes (calls st1) = []
  | Leave => True
  end.
Proof.
  induction entries as [|[p change] rest IH]; intros st H; simpl; [exact H|].
  pose proof (applyChange_writes st p change H) as Hstep.
  destruct (applyChange C st p change) as [st1|st1 e|];
    [now apply IH | exact Hstep | exact I].
Qed.


Lemma error_status_fails {D : Type} (status : Z) (body : D) :
  (400 <= status)%Z -> failure (Responded status body).
Proof. intros H. exact H. Qed.












End DryRun.


(** ** genericTranslate *)

(** C10.  When [find] succeeds the handler answers 500 (with the null
    error as body), makes no call on any document and leaves the documents
    as they were found; the loop over the documents is only reached with an
    error, and then [objects] is undefined and [objects.forEach] throws.
    The callback itself answers 500 whenever its error argument is null or
    undefined, whatever [objects] holds. *)
Theorem genericTranslate_branches_inverted :
  forall (C : Collaborators) query updates,
    genericTranslate C query updates =
      match find C query with
      | Returned objects => mkRun (Responded 500 VNull) [Find query] objects
      | Failed m => mkRun (Threw TypeError) [Find query] VUndefined
      end /\
    (forall calls objects,
       translateCallback updates calls VNull objects =
         mkRun (Responded 500 VNull) calls objects) /\
    (forall calls objects,
       translateCallback updates calls VUndefined objects =
         mkRun (Responded 500 VUndefined) calls objects).
Proof.
  intros C query updates. split; [|split].
  - unfold genericTranslate. destruct (find C query); reflexivity.
  - reflexivity.
  - reflexivity.
Qed.

(** ** Runs that contradict the specification *)

(** C4.  Deduplicating [items] by [k] on
    [{items: [{k: "constructor"}, {k: "x"}, {k: "x"}]}] drops the only
    element whose key is ["constructor"]: the key is looked up in an object
    literal, where it is found although it was never stored. *)
Lemma dedupe_drops_inherited_key :
  removeArrayDuplicates (singleDocument keyedDocument) false (VObj [])
    (VStr "k") (VStr "items") =
  let kept := VObj [("items", VArr [VObj [("k", VStr "x")]])] in
  mkRun (Responded 200 kept) [FindOne (VObj []); MarkModified (VStr "items")] kept.
Proof. reflexivity. Qed.

(** C5.  Deleting by identifier in [items] marks as modified the first
    descriptor, an object, and not the field name ["items"]. *)
Lemma deleteFieldsById_marks_descriptor :
  genericDeleteRoute (singleDocument itemsDocument) true (VObj []) VUndefined
    (VArr [VObj [("field", VStr "items"); ("id", VStr "i1")]])
    VUndefined VUndefined =
  let left := VObj [("items", VArr [VObj [("_id", VId "i2")]])] in
  mkRun (Responded 200 left)
    [FindOne (VObj []);
     MarkModified (VObj [("field", VStr "items"); ("id", VStr "i1")]);
     Save left]
    left.
Proof. reflexivity. Qed.

(** C7.  Without a query [genericDeleteRoute] answers "No query" before
    any call on the store, but [genericChangeField] hands the undefined
    query to [findOne], changes the document that comes back and saves
    it. *)
Lemma changeField_without_query_mutates :
  genericDeleteRoute (singleDocument itemsDocument) true VUndefined
    (VArr [VStr "items"]) VUndefined VUndefined VUndefined =
    mkRun (Responded 500 (VStr "No query")) [] VUndefined /\
  genericChangeField (singleDocument itemsDocument) true VUndefined
    (VObj [("name", VObj [("$set", VStr "x")])]) =
    let changed :=
      VObj [("items", VArr [VObj [("_id", VId "i1")]; VObj [("_id", VId "i2")]]);
            ("name", VStr "x")] in
    mkRun (Responded 201 changed)
      [FindOne VUndefined; MarkModified (VStr "name"); Save changed] changed.
Proof. split; reflexivity. Qed.

(** C8.  Injecting [["new"]] at [items.subitems] below the item [i1]
    leaves [subitems] as it was: the elements are pushed onto the item
    itself, which receives the property ["0"] and a [length]. *)
Lemma inject_pushes_onto_the_element :
  genericInject (singleDocument nestedDocument) false (VObj [])
    (VArr [VStr "new"]) (VStr "items.subitems") (VStr "i1") =
  let after :=
    VObj [("items",
           VArr [VObj [("_id", VId "i1"); ("subitems", VArr [VStr "old"]);
                       ("0", VStr "new"); ("length", VNum 1)]])] in
  mkRun (Responded 200 after) [FindOne (VObj []); MarkModified (VStr "items")] after.
Proof. reflexivity. Qed.

(** * Further properties *)

(** ** genericChangeField, beyond the specification *)

Module ChangeMore.
Import Lodash LodashFacts.

Lemma charStrings_length s : List.length (charStrings s) = String.length s.
Proof. induction s; simpl; auto. Qed.

Lemma nth_defined (es : list value) i :
  nth i es VUndefined <> VUndefined -> i < List.length es.
Proof.
  intros H. destruct (Nat.lt_ge_cases i (List.length es)) as [|Hge]; [assumption|].
  now rewrite (nth_overflow es VUndefined Hge) in H.
Qed.

(** A property that reads as a value is an own property. *)
Lemma getProp_defined o k : getProp o k <> VUndefined -> hasOwn o k = true.
Proof.
  destruct o; simpl; try congruence.
  - destruct (arrayIndex k) as [i|].
    + intros H. apply Nat.ltb_lt. rewrite <- charStrings_length.
      now apply nth_defined.
    + destruct (String.eqb k "length"); congruence.
  - destruct (arrayIndex k) as [i|].
    + intros H. apply Nat.ltb_lt. now apply nth_defined.
    + destruct (String.eqb k "length"); congruence.
  - destruct (assocGet fields k); congruence.
Qed.

Lemma baseGetLoop_undefined path : baseGetLoop VUndefined path = Some VUndefined.
Proof. destruct path; reflexivity. Qed.

(** What [read] gives is the property of the holder. *)
Lemma read_getProp o k x : read o k = Some x -> x = getProp o k.
Proof. unfold read. destruct (readable o k); congruence. Qed.

(** Where [_.get] reads an array, [_.has] holds. *)
Lemma hasPathLoop_of_array path : forall o es,
  baseGetLoop o path = Some (VArr es) -> path <> [] -> hasPathLoop o path = true.
Proof.
  induction path as [|k rest IH]; intros o es Hget Hne; [congruence|].
  cbn [baseGetLoop] in Hget.
  destruct (nullish o) eqn:Hn; [discriminate|].
  destruct (read o k) as [x|] eqn:Er; [|discriminate].
  apply read_getProp in Er. subst x.
  assert (Hk : getProp o k <> VUndefined).
  { intros E. rewrite E, baseGetLoop_undefined in Hget. discriminate. }
  pose proof (getProp_defined _ _ Hk) as Hown.
  destruct rest as [|k' rest'].
  - cbn. now rewrite Hn, Hown.
  - cbn [hasPathLoop]. rewrite Hn, Hown.
    apply (IH _ es Hget). discriminate.
Qed.

Lemma assocSet_present fs k x k' :
  assocGet fs k <> None ->
  (assocGet (assocSet fs k x) k' = None <-> assocGet fs k' = None).
Proof.
  intros Hk. destruct (String.eqb_spec k' k) as [->|Hne].
  - rewrite assocGet_assocSet_same. split; [discriminate|tauto].
  - now rewrite (assocGet_assocSet_other _ _ _ _ Hne).
Qed.

(** An in-place change below a document keeps the names of its fields. *)
Lemma hasOwn_updateAt fs path f k :
  hasOwn (updateAt (VObj fs) path f) k = hasOwn (VObj fs) k \/ path = [].
Proof.
  destruct path as [|k0 rest]; [now right|left].
  cbn [updateAt]. destruct (assocGet fs k0) as [child|] eqn:E; [|reflexivity].
  cbn [hasOwn].
  assert (Hp : assocGet fs k0 <> None) by congruence.
  pose proof (assocSet_present fs k0 (updateAt child rest f) k Hp) as Hiff.
  destruct (assocGet (assocSet fs k0 (updateAt child rest f)) k) eqn:E1;
    destruct (assocGet fs k) eqn:E2; try reflexivity.
  - destruct Hiff as [_ Hiff]. now specialize (Hiff eq_refl).
  - destruct Hiff as [Hiff _]. now specialize (Hiff eq_refl).
Qed.

Lemma castPath_after_updateAt fs p f :
  castPath p (VObj fs) <> [] ->
  castPath p (updateAt (VObj fs) (castPath p (VObj fs)) f) = castPath p (VObj fs).
Proof.
  intros Hne.
  assert (Hn : forall path, nullish (updateAt (VObj fs) path f) = false \/ path = []).
  { intros [|k0 rest]; [now right|left]. cbn [updateAt].
    destruct (assocGet fs k0); reflexivity. }
  destruct (Hn (castPath p (VObj fs))) as [Hnull|E]; [|congruence].
  destruct (hasOwn_updateAt fs (castPath p (VObj fs)) f p) as [Hown|E];
    [|congruence].
  unfold castPath at 1 3. unfold isKey. rewrite Hnull, Hown. reflexivity.
Qed.

Lemma scalar_nth_charStrings s i : scalar (nth i (charStrings s) VUndefined) = true.
Proof.
  revert i. induction s as [|a s IH]; intros [|i]; simpl; auto.
Qed.

Lemma scalar_getProp v k : scalar v = true -> scalar (getProp v k) = true.
Proof.
  destruct v; simpl; try reflexivity; try discriminate. intros _.
  destruct (arrayIndex k) as [i|]; [apply scalar_nth_charStrings|].
  destruct (String.eqb k "length"); reflexivity.
Qed.

Lemma scalar_baseGetLoop path : forall v x,
  scalar v = true -> baseGetLoop v path = Some x -> scalar x = true.
Proof.
  induction path as [|k rest IH]; intros v x Hv; cbn [baseGetLoop].
  - now intros [= <-].
  - destruct (nullish v); [now intros [= <-]|].
    destruct (read v k) as [y|] eqn:Er; [|discriminate].
    apply read_getProp in Er. subst y.
    apply IH. now apply scalar_getProp.
Qed.

Lemma nullish_updateAt v k rest f :
  nullish v = false -> nullish (updateAt v (k :: rest) f) = false.
Proof.
  intros Hn. destruct v; try exact Hn; cbn [updateAt].
  - destruct (arrayIndex k) as [i|]; [|reflexivity].
    destruct (Nat.ltb i (List.length elems)); reflexivity.
  - destruct (assocGet fields k); reflexivity.
Qed.

(** Reading where an array was changed in place gives the changed array. *)
Lemma baseGetLoop_updateAt path : forall o es f,
  baseGetLoop o path = Some (VArr es) -> path <> [] ->
  nullish (f (VArr es)) = false ->
  baseGetLoop (updateAt o path f) path = Some (f (VArr es)).
Proof.
  induction path as [|k rest IH]; intros o es f Hget Hne Hf; [congruence|].
  cbn [baseGetLoop] in Hget.
  destruct (nullish o) eqn:Hn; [discriminate|].
  destruct (read o k) as [x|] eqn:Er; [|discriminate].
  pose proof (read_getProp _ _ _ Er) as Hx. subst x.
  assert (Hreadable : readable o k = true).
  { unfold read in Er. destruct (readable o k); [reflexivity|discriminate]. }
  assert (Hk : getProp o k <> VUndefined).
  { intros E. rewrite E, baseGetLoop_undefined in Hget. discriminate. }
  assert (Hrec : forall child, getProp o k = child ->
            baseGetLoop (updateAt child rest f) rest = Some (f (VArr es)) /\
            nullish (updateAt child rest f) = false).
  { intros child Hc. rewrite Hc in Hget. destruct rest as [|k' rest'].
    - cbn in *. injection Hget as ->. now split.
    - split; [apply IH; [exact Hget|discriminate|exact Hf]|].
      cbn [baseGetLoop] in Hget. apply nullish_updateAt.
      destruct (nullish child); [discriminate|reflexivity]. }
  assert (Ho : scalar o = false).
  { destruct (scalar o) eqn:Ho; [|reflexivity].
    pose proof (scalar_baseGetLoop rest _ _ (scalar_getProp o k Ho) Hget) as Hs.
    discriminate. }
  destruct o; try discriminate Ho.
  - cbn [updateAt]. destruct (arrayIndex k) as [i|] eqn:Ei.
    + assert (Hlt : i < List.length elems).
      { apply nth_defined. simpl in Hk. now rewrite Ei in Hk. }
      apply Nat.ltb_lt in Hlt. rewrite Hlt.
      destruct (Hrec (nth i elems VUndefined)) as [Hr Hnn];
        [simpl; now rewrite Ei|].
      cbn [baseGetLoop nullish]. unfold read.
      change (readable (VArr ?l) k) with (readable (VArr elems) k).
      rewrite Hreadable. cbn [getProp]. rewrite Ei, nth_writeNth_same.
      exact Hr.
    + exfalso.
      pose proof (scalar_baseGetLoop rest (getProp (VArr elems) k) (VArr es)) as Hs.
      simpl in Hs, Hget. rewrite Ei in Hs, Hget.
      destruct (String.eqb k "length"); now specialize (Hs eq_refl Hget).
  - cbn [updateAt]. destruct (assocGet fields k) as [child|] eqn:Ek;
      [|simpl in Hk; rewrite Ek in Hk; congruence].
    destruct (Hrec child) as [Hr Hnn]; [simpl; now rewrite Ek|].
    cbn [baseGetLoop nullish]. unfold read. cbn [readable hasOwn getProp].
    rewrite assocGet_assocSet_same. cbn [orb]. exact Hr.
Qed.

End ChangeMore.

Section ChangeExtra.

Variable C : Collaborators.

(** X1.  Where [_.get] reads the array [es] at the path [p] of a
    document, the change [{p: {$push: v}}] appends [v]: afterwards [_.get]
    reads [es ++ [v]] at [p], and [markModified] is called with the first
    key of [_.toPath(p)]. *)
Theorem push_on_array_appends :
  forall (st : changeState) fs p v es k ks,
    object st = VObj fs ->
    Lodash.get (VObj fs) p VUndefined = Some (VArr es) ->
    Lodash.toPath p = k :: ks ->
    exists o,
      applyChange C st p (VObj [("$push", v)]) =
        Next (mkState o (reads st) (calls st ++ [MarkModified (VStr k)])) /\
      (forall d, Lodash.get o p d = Some (VArr (es ++ [v]))).
Proof.
  intros st fs p v es k ks Hobj Hget Hpath.
  assert (Hloop : Lodash.baseGetLoop (VObj fs) (Lodash.castPath p (VObj fs))
                  = Some (VArr es) /\ Lodash.castPath p (VObj fs) <> []).
  { unfold Lodash.get in Hget. cbn [nullish] in Hget. unfold Lodash.baseGet in Hget.
    destruct (Lodash.castPath p (VObj fs)) as [|k0 ks0]; [discriminate|].
    split; [|discriminate].
    destruct (Lodash.baseGetLoop (VObj fs) (k0 :: ks0)) as [[]|];
      try discriminate. exact Hget. }
  destruct Hloop as [Hloop Hne].
  assert (Hhas : Lodash.has (VObj fs) p = true).
  { unfold Lodash.has. cbn [nullish negb andb].
    apply (ChangeMore.hasPathLoop_of_array _ _ es Hloop Hne). }
  set (o := updateAt (VObj fs) (Lodash.castPath p (VObj fs)) (arrayPush v)).
  assert (Hnull : nullish o = false).
  { unfold o. destruct (Lodash.castPath p (VObj fs)) as [|k0 ks0]; [congruence|].
    now apply ChangeMore.nullish_updateAt. }
  assert (Hw : VArr es <> VUndefined) by discriminate.
  exists o. split.
  - unfold applyChange. cbn. unfold pushChange. rewrite Hobj, Hhas.
    cbv beta iota zeta. rewrite Hobj.
    rewrite (LodashFacts.get_default _ _ v _ Hget Hw), Hget. cbn.
    fold o. unfold markModified. cbn [object reads calls]. rewrite Hnull.
    unfold firstSegment. now rewrite Hpath.
  - intros d. unfold Lodash.get. rewrite Hnull. unfold o.
    rewrite (ChangeMore.castPath_after_updateAt _ _ _ Hne).
    unfold Lodash.baseGet.
    destruct (Lodash.castPath p (VObj fs)) as [|k0 ks0] eqn:Ep; [congruence|].
    rewrite (ChangeMore.baseGetLoop_updateAt _ _ es (arrayPush v) Hloop Hne eq_refl).
    reflexivity.
Qed.

(** The ends of the [$push] branch. *)
Lemma pushChange_next st p v st1 :
  pushChange st p v = Next st1 ->
  exists st0,
    (st0 = st \/ setAt st p (VArr []) = Some st0) /\
    calls st1 = calls st0 /\
    (object st1 = object st0 \/
     object st1 = updateAt (object st0) (Lodash.castPath p (object st0))
                    (arrayPush v)).
Proof.
  unfold pushChange. intros E.
  assert (Hgen : forall st0,
            match Lodash.get (object st0) p v,
                  Lodash.get (object st0) p VUndefined with
            | Some arr, Some stored =>
                if negb (isArray arr)
                then Abort st0 (HttpError 500 (p ++ " is not an array"))
                else
                  match stored with
                  | VUndefined => Next st0
                  | _ =>
                      Next (mkState
                              (updateAt (object st0)
                                 (Lodash.castPath p (object st0)) (arrayPush v))
                              (reads st0) (calls st0))
                  end
            | _, _ => Leave
            end = Next st1 ->
            calls st1 = calls st0 /\
            (object st1 = object st0 \/
             object st1 = updateAt (object st0) (Lodash.castPath p (object st0))
                            (arrayPush v))).
  { intros st0 H.
    destruct (Lodash.get (object st0) p v) as [arr|]; [|discriminate].
    destruct (Lodash.get (object st0) p VUndefined) as [stored|]; [|discriminate].
    destruct (negb (isArray arr)); [discriminate|].
    destruct stored; injection H as <-; cbn; auto. }
  destruct (Lodash.has (object st) p).
  - exists st. split; [now left|]. now apply Hgen.
  - destruct (setAt st p (VArr [])) as [st0|] eqn:E0; [|discriminate].
    exists st0. split; [now right|]. now apply Hgen.
Qed.

(** Every change that succeeds calls [markModified] once, with the first
    segment of its path. *)
Lemma applyChange_marks st p change st1 :
  applyChange C st p change = Next st1 ->
  calls st1 = calls st ++ [MarkModified (firstSegment p)].
Proof.
  unfold applyChange.
  destruct (negb (typeofObject change)); [discriminate|].
  destruct (ownEntries change) as [[|[changeType v] [|? ?]]|e|]; try discriminate.
  assert (Hmark : forall st0, calls st0 = calls st ->
            markModified st0 (firstSegment p) = Next st1 ->
            calls st1 = calls st ++ [MarkModified (firstSegment p)]).
  { intros st0 Hc. unfold markModified.
    destruct (nullish (object st0)); [discriminate|].
    intros [= <-]. cbn. now rewrite Hc. }
  destruct (String.eqb changeType "$set").
  { destruct (setAt st p v) as [st0|] eqn:E; [|discriminate].
    apply Hmark. now apply setAt_calls in E. }
  destruct (String.eqb changeType "$setid").
  { destruct (ObjectId C v) as [hex|]; [|discriminate].
    destruct (setAt st p (VId hex)) as [st0|] eqn:E; [|discriminate].
    apply Hmark. now apply setAt_calls in E. }
  destruct (String.eqb changeType "$setstatus").
  { destruct (setAt _ p _) as [st0|] eqn:E; [|discriminate].
    apply Hmark. now apply setAt_calls in E. }
  destruct (String.eqb changeType "$push"); [|discriminate].
  destruct (pushChange st p v) as [st0| |] eqn:E; try discriminate.
  apply Hmark.
  destruct (pushChange_next _ _ _ _ E) as (st2 & [->|E2] & Hc & _);
    [exact Hc|].
  rewrite Hc. now apply setAt_calls in E2.
Qed.

Lemma applyChanges_marks entries : forall st st1,
  applyChanges C st entries = Next st1 ->
  calls st1 =
  calls st ++ map (fun e => MarkModified (firstSegment (fst e))) entries.
Proof.
  induction entries as [|[p change] rest IH]; intros st st1; simpl.
  - intros [= <-]. now rewrite app_nil_r.
  - destruct (applyChange C st p change) as [st0| |] eqn:E; try discriminate.
    intros H. rewrite (IH _ _ H), (applyChange_marks _ _ _ _ E).
    now rewrite <- app_assoc.
Qed.

(** X2.  A request whose changes all succeed calls [markModified] once per
    change, in the order of [Object.entries(changes)] and each time with
    the first segment of the path of the change, between [findOne] and the
    [save] that only happens with [saveEnabled]. *)
Theorem changes_are_marked_in_order :
  forall saveEnabled query changes entries status body,
    ownEntries changes = Done entries ->
    response (genericChangeField C saveEnabled query changes) =
      Responded status body ->
    let r := genericChangeField C saveEnabled query changes in
    trace r =
      [FindOne query]
      ++ map (fun e => MarkModified (firstSegment (fst e))) entries
      ++ (if saveEnabled then [Save (document r)] else []).
Proof.
  intros saveEnabled query changes entries status body Hentries.
  unfold genericChangeField. rewrite Hentries.
  destruct (findOne C query) as [m|obj]; [discriminate|].
  destruct (applyChanges C _ entries) as [st| |] eqn:E; try discriminate.
  pose proof (applyChanges_marks _ _ _ E) as Hcalls. cbn in Hcalls.
  destruct saveEnabled; cbn.
  - destruct (nullish (object st)); [discriminate|].
    destruct (save C (object st)); [discriminate|]. intros _. cbn.
    rewrite Hcalls. reflexivity.
  - intros _. rewrite Hcalls. cbn. now rewrite app_nil_r.
Qed.

Lemma applyChanges_stops pre : forall st st1 e post,
  applyChanges C st pre = Abort st1 e ->
  applyChanges C st (pre ++ post) = Abort st1 e.
Proof.
  induction pre as [|[p change] rest IH]; intros st st1 e post; simpl;
    [discriminate|].
  destruct (applyChange C st p change) as [st0| |]; auto.
Qed.

(** X3.  When a change throws, the request ends with that error: the
    changes after it are not applied, the document keeps the changes made
    before it, and [save] is not called even with [saveEnabled]. *)
Theorem failed_change_is_not_saved :
  forall saveEnabled query changes obj pre post st e,
    findOne C query = Returned obj ->
    ownEntries changes = Done (pre ++ post) ->
    applyChanges C (mkState obj 0 [FindOne query]) pre = Abort st e ->
    genericChangeField C saveEnabled query changes =
      mkRun (Threw e) (calls st) (object st) /\
    writes (calls st) = [].
Proof.
  intros saveEnabled query changes obj pre post st e Hfind Hentries Habort.
  split.
  - unfold genericChangeField. rewrite Hfind, Hentries.
    now rewrite (applyChanges_stops _ _ _ _ post Habort).
  - pose proof (applyChanges_writes C pre (mkState obj 0 [FindOne query]) eq_refl)
      as Hw.
    now rewrite Habort in Hw.
Qed.

Lemma updateAt_frame fs k ks f k' :
  k' <> k ->
  getProp (updateAt (VObj fs) (k :: ks) f) k' = getProp (VObj fs) k'.
Proof.
  intros Hne. cbn [updateAt].
  destruct (assocGet fs k); [|reflexivity].
  cbn [getProp]. now rewrite assocGet_assocSet_other.
Qed.

Lemma set_frame fs p v o k ks k' :
  Lodash.set (VObj fs) p v = Some o ->
  Lodash.castPath p (VObj fs) = k :: ks ->
  k' <> k ->
  getProp o k' = getProp (VObj fs) k'.
Proof.
  unfold Lodash.set. cbn [Lodash.isObject]. intros Hset Hp Hne.
  rewrite Hp in Hset.
  destruct (LodashFacts.baseSet_record _ _ _ _ _ Hset) as [->|[child ->]];
    [reflexivity|].
  cbn [getProp]. now rewrite assocGet_assocSet_other.
Qed.

Lemma setAt_frame st fs p v st1 k ks k' :
  object st = VObj fs ->
  setAt st p v = Some st1 ->
  Lodash.castPath p (VObj fs) = k :: ks ->
  k' <> k ->
  getProp (object st1) k' = getProp (VObj fs) k'.
Proof.
  unfold setAt. intros Hobj Hset Hp Hne. rewrite Hobj in Hset.
  destruct (Lodash.set (VObj fs) p v) as [o|] eqn:Eo; [|discriminate].
  injection Hset as <-. cbn [object]. exact (set_frame _ _ _ _ _ _ _ Eo Hp Hne).
Qed.

Lemma pushChange_frame st fs p v st1 k ks k' :
  object st = VObj fs ->
  pushChange st p v = Next st1 ->
  Lodash.castPath p (VObj fs) = k :: ks ->
  k' <> k ->
  getProp (object st1) k' = getProp (VObj fs) k'.
Proof.
  intros Hobj Hpush Hp Hne.
  destruct (pushChange_next _ _ _ _ Hpush) as (st0 & Hst0 & _ & Hres).
  assert (H0 : exists fs0, object st0 = VObj fs0 /\
                 Lodash.castPath p (VObj fs0) = k :: ks /\
                 getProp (VObj fs0) k' = getProp (VObj fs) k').
  { destruct Hst0 as [->|Eset]; [exists fs; now repeat split|].
    pose proof (setAt_frame _ _ _ _ _ _ _ _ Hobj Eset Hp Hne) as Hframe.
    unfold setAt in Eset. rewrite Hobj in Eset.
    destruct (Lodash.set (VObj fs) p (VArr [])) as [o|] eqn:Eo; [|discriminate].
    injection Eset as <-. cbn [object] in *.
    unfold Lodash.set in Eo. cbn [Lodash.isObject] in Eo.
    pose proof (LodashFacts.castPath_after_baseSet _ _ _ _ Eo) as Hp'.
    rewrite Hp in Eo, Hp'.
    destruct (LodashFacts.baseSet_record _ _ _ _ _ Eo) as [->|[child ->]];
      eexists; repeat split; eauto. }
  destruct H0 as (fs0 & Hobj0 & Hp0 & Hframe0).
  destruct Hres as [->| ->]; rewrite Hobj0; [exact Hframe0|].
  rewrite Hp0, updateAt_frame by exact Hne. exact Hframe0.
Qed.

(** X4.  A change that succeeds touches one field of the document only:
    with [k] the first key under which [_.set] and [_.get] resolve the
    path, every other field reads as before, whatever the change type. *)
Theorem change_touches_one_field :
  forall (st : changeState) fs p change st1 k ks k',
    object st = VObj fs ->
    Lodash.castPath p (VObj fs) = k :: ks ->
    applyChange C st p change = Next st1 ->
    k' <> k ->
    getProp (object st1) k' = getProp (VObj fs) k'.
Proof.
  intros st fs p change st1 k ks k' Hobj Hp Happly Hne.
  unfold applyChange in Happly.
  destruct (negb (typeofObject change)); [discriminate|].
  destruct (ownEntries change) as [[|[changeType v] [|]]| |]; try discriminate.
  assert (Hmark : forall st0,
            markModified st0 (firstSegment p) = Next st1 ->
            object st1 = object st0).
  { intros st0. unfold markModified. destruct (nullish (object st0));
      [discriminate|]. now intros [= <-]. }
  destruct (String.eqb changeType "$set").
  { destruct (setAt st p v) as [st0|] eqn:E; [|discriminate].
    rewrite (Hmark _ Happly). exact (setAt_frame _ _ _ _ _ _ _ _ Hobj E Hp Hne). }
  destruct (String.eqb changeType "$setid").
  { destruct (ObjectId C v) as [hex|]; [|discriminate].
    destruct (setAt st p (VId hex)) as [st0|] eqn:E; [|discriminate].
    rewrite (Hmark _ Happly). exact (setAt_frame _ _ _ _ _ _ _ _ Hobj E Hp Hne). }
  destruct (String.eqb changeType "$setstatus").
  { destruct (setAt _ p _) as [st0|] eqn:E; [|discriminate].
    rewrite (Hmark _ Happly).
    exact (setAt_frame (mkState (object st) (S (reads st)) (calls st))
             _ _ _ _ _ _ _ Hobj E Hp Hne). }
  destruct (String.eqb changeType "$push"); [|discriminate].
  destruct (pushChange st p v) as [st0| |] eqn:E; try discriminate.
  rewrite (Hmark _ Happly). exact (pushChange_frame _ _ _ _ _ _ _ _ Hobj E Hp Hne).
Qed.

End ChangeExtra.

(** ** genericDeleteRoute, beyond the specification *)

Section DeleteExtra.

Variable C : Collaborators.

Lemma respondOrSave_trace saveEnabled calls obj :
  trace (respondOrSave C saveEnabled calls obj) =
    calls ++ (if saveEnabled then [Save obj] else []) /\
  document (respondOrSave C saveEnabled calls obj) = obj.
Proof.
  unfold respondOrSave. destruct saveEnabled; cbn.
  - destruct (save C obj); now split.
  - now rewrite app_nil_r.
Qed.

(** X5.  Without a query [genericDeleteRoute] makes no call on the store:
    it answers 400 when the request names nothing to delete, and 500 "No
    query" otherwise. *)
Theorem deleteRoute_without_query_leaves_store :
  forall saveEnabled query deleteFields deleteFieldsById deleteAll deleteArray,
    nullish query = true ->
    let r := genericDeleteRoute C saveEnabled query deleteFields
               deleteFieldsById deleteAll deleteArray in
    trace r = [] /\
    (response r = Responded 400 (VStr "Nothing to delete!") \/
     response r = Responded 500 (VStr "No query")).
Proof.
  intros saveEnabled query deleteFields deleteFieldsById deleteAll deleteArray Hq.
  unfold genericDeleteRoute. rewrite Hq.
  destruct (negb _); cbn; auto.
Qed.

Lemma assocGet_assocDelete_same fs k : assocGet (assocDelete fs k) k = None.
Proof.
  induction fs as [|[k' v] rest IH]; simpl; [reflexivity|].
  destruct (String.eqb k' k) eqn:E; simpl; [exact IH|]. now rewrite E.
Qed.

Lemma assocGet_assocDelete_other fs k k' :
  k' <> k -> assocGet (assocDelete fs k) k' = assocGet fs k'.
Proof.
  intros Hne. induction fs as [|[k0 v] rest IH]; simpl; [reflexivity|].
  destruct (String.eqb k0 k) eqn:E; simpl.
  - apply String.eqb_eq in E. subst k0.
    destruct (String.eqb_spec k k') as [->|_]; [congruence|exact IH].
  - now rewrite IH.
Qed.

Lemma assocGet_assocDelete_none fs k k' :
  assocGet fs k' = None -> assocGet (assocDelete fs k) k' = None.
Proof.
  intros H. destruct (String.eqb_spec k' k) as [->|Hne].
  - apply assocGet_assocDelete_same.
  - now rewrite assocGet_assocDelete_other.
Qed.

(** The fields that are left after the [forEach] over [deleteFields]. *)
Lemma deleteEach_result fields : forall fs calls,
  exists fs',
    deleteEach C (VObj fs) calls fields =
      Done (VObj fs', calls ++ map MarkModified fields) /\
    (forall f, In f fields -> assocGet fs' (propertyKey C f) = None) /\
    (forall k, assocGet fs k = None -> assocGet fs' k = None) /\
    (forall k, (forall f, In f fields -> propertyKey C f <> k) ->
               assocGet fs' k = assocGet fs k).
Proof.
  induction fields as [|f rest IH]; intros fs calls.
  - exists fs. cbn. rewrite app_nil_r. repeat split; auto. intros f [].
  - destruct (IH (assocDelete fs (propertyKey C f)) (calls ++ [MarkModified f]))
      as (fs' & Hrun & Hgone & Hnone & Hframe).
    exists fs'. cbn [deleteEach map]. rewrite Hrun, <- app_assoc. cbn.
    repeat split.
    + intros f0 [<-|Hin]; [|now apply Hgone].
      apply Hnone, assocGet_assocDelete_same.
    + intros k Hk. now apply Hnone, assocGet_assocDelete_none.
    + intros k Hk. rewrite Hframe by (intros f0 Hin; apply Hk; now right).
      apply assocGet_assocDelete_other. intros ->. now apply (Hk f); [left|].
Qed.

(** X6.  With [deleteFields] (and neither [deleteFieldsById] nor
    [deleteAll]) every named field is gone from the document, every other
    field keeps its value, and [markModified] is called once per name, in
    order, before the [save] that only happens with [saveEnabled]. *)
Theorem deleteFields_removes_the_fields :
  forall saveEnabled query fields deleteFieldsById deleteAll deleteArray fs,
    nullish query = false ->
    truthy deleteFieldsById = false ->
    truthy deleteAll = false ->
    findOne C query = Returned (VObj fs) ->
    let r := genericDeleteRoute C saveEnabled query (VArr fields)
               deleteFieldsById deleteAll deleteArray in
    (forall f, In f fields ->
       hasOwn (document r) (propertyKey C f) = false) /\
    (forall k, (forall f, In f fields -> propertyKey C f <> k) ->
       getProp (document r) k = getProp (VObj fs) k) /\
    trace r =
      [FindOne query] ++ map MarkModified fields
      ++ (if saveEnabled then [Save (document r)] else []).
Proof.
  intros saveEnabled query fields deleteFieldsById deleteAll deleteArray fs
    Hq Hbyid Hall Hfind.
  destruct (deleteEach_result fields fs []) as (fs' & Hrun & Hgone & _ & Hframe).
  unfold genericDeleteRoute. rewrite Hq, Hbyid, Hall, Hfind. cbn.
  rewrite Hrun. cbn.
  destruct (respondOrSave_trace saveEnabled
              (FindOne query :: map MarkModified fields) (VObj fs')) as [Ht Hd].
  rewrite Ht, Hd. repeat split.
  - intros f Hin. cbn. now rewrite (Hgone f Hin).
  - intros k Hk. cbn. now rewrite (Hframe k Hk).
Qed.

(** The search of [deleteFieldsById] and [removeBid]: the first element
    whose [_id] equals [id]. *)
Lemma findById_found pre : forall e post id hex k,
  Forall (fun x => exists h, nullish x = false /\ getProp x "_id" = VId h /\
                             idEquals C h id = false) pre ->
  nullish e = false -> getProp e "_id" = VId hex -> idEquals C hex id = true ->
  findById C (pre ++ e :: post) id k = Done (Some (k + List.length pre)).
Proof.
  induction pre as [|x rest IH]; intros e post id hex k Hpre Hn He Heq.
  - cbn. rewrite Hn, He, Heq. now rewrite Nat.add_0_r.
  - inversion Hpre as [|? ? (h & Hx1 & Hx2 & Hx3) Hrest]; subst.
    cbn. rewrite Hx1, Hx2, Hx3.
    rewrite (IH e post id hex (S k) Hrest Hn He Heq). f_equal. f_equal. lia.
Qed.

Lemma findById_absent es : forall id k,
  Forall (fun x => exists h, nullish x = false /\ getProp x "_id" = VId h /\
                             idEquals C h id = false) es ->
  findById C es id k = Done None /\ indexOfUndefined es k = None.
Proof.
  induction es as [|x rest IH]; intros id k Hes; [now split|].
  inversion Hes as [|? ? (h & Hx1 & Hx2 & Hx3) Hrest]; subst.
  destruct (IH id (S k) Hrest) as [Hf Hi].
  cbn. rewrite Hx1, Hx2, Hx3, Hf. split; [reflexivity|].
  destruct x; try discriminate Hx1; exact Hi.
Qed.

Lemma removeAt_middle (pre : list value) e post :
  removeAt (List.length pre) (pre ++ e :: post) = pre ++ post.
Proof.
  unfold removeAt. induction pre as [|x rest IH]; cbn; [reflexivity|].
  cbn in IH. now rewrite IH.
Qed.

Lemma removeAt_last (es : list value) :
  removeAt (List.length es - 1) es = removelast es.
Proof.
  destruct es as [|x rest]; [reflexivity|].
  destruct (exists_last (l := x :: rest)) as (pre & e & ->); [discriminate|].
  rewrite length_app, removelast_last. cbn [List.length].
  replace (List.length pre + 1 - 1) with (List.length pre) by lia.
  rewrite removeAt_middle. apply app_nil_r.
Qed.

(** X7.  One descriptor [{field, id}] in [deleteFieldsById]: the first
    element of [object[field]] whose [_id] equals [id] is taken out of the
    array, the elements around it keep their order, and the descriptor is
    what [markModified] receives. *)
Theorem deleteFieldsById_removes_first_match :
  forall saveEnabled query deleteFields deleteAll deleteArray fs f id
         pre e post hex,
    nullish query = false ->
    findOne C query = Returned (VObj fs) ->
    nullish id = false ->
    assocGet fs f = Some (VArr (pre ++ e :: post)) ->
    Forall (fun x => exists h, nullish x = false /\ getProp x "_id" = VId h /\
                               idEquals C h id = false) pre ->
    nullish e = false -> getProp e "_id" = VId hex ->
    idEquals C hex id = true ->
    let descriptor := VObj [("field", VStr f); ("id", id)] in
    let r := genericDeleteRoute C saveEnabled query deleteFields
               (VArr [descriptor]) deleteAll deleteArray in
    document r = VObj (assocSet fs f (VArr (pre ++ post))) /\
    trace r = [FindOne query; MarkModified descriptor]
              ++ (if saveEnabled then [Save (document r)] else []).
Proof.
  intros saveEnabled query deleteFields deleteAll deleteArray fs f id
    pre e post hex Hq Hfind Hid Hf Hpre Hn He Heq descriptor r.
  subst r descriptor. unfold genericDeleteRoute.
  replace (truthy deleteFields || truthy (VArr _) || truthy deleteAll
           || truthy deleteArray) with true
    by (cbn; now rewrite !orb_true_r).
  rewrite Hq, Hfind. cbn [negb nullish truthy].
  unfold deleteById.
  cbn [elementsOf bind descendById nullish orb deref getProp assocGet
       String.eqb Ascii.eqb Bool.eqb app propertyKey jsToString].
  rewrite Hid. cbn [step1 deref getProp]. rewrite Hf.
  cbn [elementsOf bind].
  rewrite (findById_found pre e post id hex 0 Hpre Hn He Heq).
  cbn [bind descendById snd fst deref step1 getProp]. rewrite Hf.
  cbn [elementsOf bind indexOfRef List.length skipn app spliceOne Nat.add].
  rewrite removeAt_middle.
  cbn [assign step1 getProp setProp nth abandon].
  destruct (respondOrSave_trace saveEnabled
              [FindOne query; MarkModified
                 (VObj [("field", VStr f); ("id", id)])]
              (VObj (assocSet fs f (VArr (pre ++ post))))) as [Ht Hd].
  rewrite Ht, Hd. split; reflexivity.
Qed.

(** X8.  When no element of [object[field]] carries the [_id] of the
    descriptor, [indexOf] gives -1 and [splice(-1, 1)] takes the LAST
    element out of the array: a request that names an unknown id still
    deletes an element. *)
Theorem deleteFieldsById_unknown_id_removes_last :
  forall saveEnabled query deleteFields deleteAll deleteArray fs f id es,
    nullish query = false ->
    findOne C query = Returned (VObj fs) ->
    nullish id = false ->
    assocGet fs f = Some (VArr es) ->
    Forall (fun x => exists h, nullish x = false /\ getProp x "_id" = VId h /\
                               idEquals C h id = false) es ->
    let descriptor := VObj [("field", VStr f); ("id", id)] in
    let r := genericDeleteRoute C saveEnabled query deleteFields
               (VArr [descriptor]) deleteAll deleteArray in
    document r = VObj (assocSet fs f (VArr (removelast es))) /\
    trace r = [FindOne query; MarkModified descriptor]
              ++ (if saveEnabled then [Save (document r)] else []).
Proof.
  intros saveEnabled query deleteFields deleteAll deleteArray fs f id es
    Hq Hfind Hid Hf Hes descriptor r.
  subst r descriptor. unfold genericDeleteRoute.
  replace (truthy deleteFields || truthy (VArr _) || truthy deleteAll
           || truthy deleteArray) with true
    by (cbn; now rewrite !orb_true_r).
  rewrite Hq, Hfind. cbn [negb nullish truthy].
  unfold deleteById.
  cbn [elementsOf bind descendById nullish orb deref getProp assocGet
       String.eqb Ascii.eqb Bool.eqb app propertyKey jsToString].
  rewrite Hid. cbn [step1 deref getProp]. rewrite Hf.
  cbn [elementsOf bind].
  destruct (findById_absent es id 0 Hes) as [Hnone Hundef].
  rewrite Hnone.
  cbn [bind descendById snd fst deref step1 getProp]. rewrite Hf.
  cbn [elementsOf bind indexOfRef spliceOne]. rewrite Hundef.
  cbn [spliceOne]. rewrite removeAt_last.
  cbn [assign step1 getProp setProp nth abandon].
  destruct (respondOrSave_trace saveEnabled
              [FindOne query; MarkModified
                 (VObj [("field", VStr f); ("id", id)])]
              (VObj (assocSet fs f (VArr (removelast es))))) as [Ht Hd].
  rewrite Ht, Hd. split; reflexivity.
Qed.

End DeleteExtra.

(** The end of a handler that answers through [respondOrSave]. *)
Ltac answered :=
  match goal with
  | |- context [respondOrSave ?C ?s ?c ?o] =>
      let Ht := fresh "Ht" in
      let Hd := fresh "Hd" in
      destruct (respondOrSave_trace C s c o) as [Ht Hd]; rewrite ?Ht, ?Hd
  end.

(** ** Dotted paths: dotTraverse and genericInject *)

Lemma splitDots_app (p q : string) :
  splitDots (p ++ String dot q) = splitDots p ++ splitDots q.
Proof.
  induction p as [|c p IH]; cbn [String.append splitDots].
  - destruct (splitDots q) as [|seg segs] eqn:E.
    + now destruct (splitDots_nonempty q).
    + reflexivity.
  - rewrite IH. destruct (splitDots p) as [|seg segs] eqn:E.
    + now destruct (splitDots_nonempty p).
    + cbn. now destruct (Ascii.eqb c dot).
Qed.

Lemma splitDots_single (s : string) : hasDot s = false -> splitDots s = [s].
Proof.
  induction s as [|c s IH]; cbn; [reflexivity|].
  intros H. apply orb_false_iff in H as [Hc Hs].
  rewrite (IH Hs), Hc. reflexivity.
Qed.

Lemma truthy_VStr_append (p q : string) :
  truthy (VStr p) = true -> truthy (VStr (p ++ q)) = true.
Proof. destruct p; [discriminate|reflexivity]. Qed.

(** X9.  [dotTraverse] composes along the dots of a path: reading
    [p + "." + q] from a tree is reading [q] from what [p] reads, as long as
    neither part is the empty string (an empty path returns the tree
    itself, an empty segment reads the property of that name). *)
Theorem dotTraverse_composes :
  forall tree p q,
    p <> EmptyString -> q <> EmptyString ->
    dotTraverse tree (VStr (p ++ String dot q)) =
      (branch <- dotTraverse tree (VStr p) ;; dotTraverse branch (VStr q)).
Proof.
  intros tree p q Hp Hq. unfold dotTraverse.
  assert (Tp : truthy (VStr p) = true) by (destruct p; [congruence|reflexivity]).
  assert (Tq : truthy (VStr q) = true) by (destruct q; [congruence|reflexivity]).
  rewrite (truthy_VStr_append p (String dot q) Tp), Tp, Tq.
  cbn [negb splitField bind]. now rewrite splitDots_app, fold_left_app.
Qed.

Section InjectExtra.

Variable C : Collaborators.

Lemma injectLoop_without_spare_field subFields : forall subIds parent cur data o,
  List.length subFields <= List.length subIds ->
  injectLoop C parent cur subFields subIds data = Done o -> o = parent.
Proof.
  induction subFields as [|f fields IH]; intros subIds parent cur data o Hlen Hrun.
  - cbn in Hrun. congruence.
  - destruct subIds as [|id ids]; [cbn in Hlen; lia|].
    cbn [injectLoop] in Hrun.
    destruct cur as [cur|]; [|discriminate].
    destruct (nullish (deref parent cur)); [discriminate|].
    destruct (elementsOf _) as [es| |]; try discriminate. cbn [bind] in Hrun.
    destruct (findByIdString C es id 0) as [found| |]; try discriminate.
    cbn [bind] in Hrun. apply IH in Hrun; [exact Hrun|cbn in Hlen; lia].
Qed.

(** X10.  [genericInject] only injects at the field segments that have no
    identifier beside them.  When [injectToField] has no more segments than
    [injectToFieldId] (always so for a field name without a dot, because
    [split] never gives an empty list), a request that is answered leaves
    the document as it was fetched, and still marks and saves it. *)
Theorem inject_without_spare_field_changes_nothing :
  forall saveEnabled query injectData f ids parent status body,
    findOne C query = Returned parent ->
    nullish parent = false ->
    List.length (splitDots f) <= List.length (splitDots ids) ->
    let r := genericInject C saveEnabled query injectData (VStr f) (VStr ids) in
    response r = Responded status body ->
    document r = parent /\
    trace r = [FindOne query; MarkModified (VStr (hd EmptyString (splitDots f)))]
              ++ (if saveEnabled then [Save parent] else []).
Proof.
  intros saveEnabled query injectData f ids parent status body
    Hfind Hparent Hlen r. subst r.
  unfold genericInject. rewrite Hfind, Hparent. cbn [splitField bind].
  destruct (injectLoop C parent (Some []) (splitDots f) (splitDots ids) injectData)
    as [o| |] eqn:Hrun; cbn [bind abandon response]; try discriminate.
  apply injectLoop_without_spare_field in Hrun; [subst o|exact Hlen].
  intros _.
  destruct (respondOrSave_trace C saveEnabled
              ([FindOne query] ++
               [MarkModified (VStr (hd EmptyString (splitDots f)))]) parent)
    as [Ht Hd].
  rewrite Ht, Hd. split; reflexivity.
Qed.

Lemma findByIdString_found pre : forall e post id k,
  Forall (fun x => nullish x = false /\
                   exists s, toStringCall C (getProp x "_id") = Done s /\
                             s <> id) pre ->
  nullish e = false ->
  toStringCall C (getProp e "_id") = Done id ->
  findByIdString C (pre ++ e :: post) id k = Done (Some (k + List.length pre)).
Proof.
  induction pre as [|x rest IH]; intros e post id k Hpre Hn He.
  - cbn. rewrite Hn, He. cbn. rewrite String.eqb_refl. now rewrite Nat.add_0_r.
  - inversion Hpre as [|? ? (Hx1 & s & Hx2 & Hx3) Hrest]; subst.
    cbn. rewrite Hx1, Hx2. cbn.
    apply String.eqb_neq in Hx3. rewrite Hx3.
    rewrite (IH e post id (S k) Hrest Hn He). f_equal. f_equal. lia.
Qed.

Lemma writeNth_middle (pre : list value) e post x :
  writeNth (pre ++ e :: post) (List.length pre) x = pre ++ x :: post.
Proof. induction pre as [|y rest IH]; cbn; [reflexivity|now rewrite IH]. Qed.

(** X11.  The [enum_opts] branch of [genericInject]: with
    [injectToField = f + ".enum_opts"] and one identifier, the [enum_opts]
    of the first element of [parentObject[f]] whose [_id] prints as the
    identifier is REPLACED by the injected values, each wrapped as
    [[{text, language: "en"}]]; the other elements are kept. *)
Theorem inject_enum_opts_replaces_the_options :
  forall saveEnabled query ds f id fs pre efs post,
    findOne C query = Returned (VObj fs) ->
    hasDot f = false -> hasDot id = false ->
    assocGet fs f = Some (VArr (pre ++ VObj efs :: post)) ->
    Forall (fun x => nullish x = false /\
                     exists s, toStringCall C (getProp x "_id") = Done s /\
                               s <> id) pre ->
    toStringCall C (getProp (VObj efs) "_id") = Done id ->
    let wrap := fun d => VArr [VObj [("text", d); ("language", VStr "en")]] in
    let r := genericInject C saveEnabled query (VArr ds)
               (VStr (f ++ ".enum_opts")) (VStr id) in
    document r =
      VObj (assocSet fs f
              (VArr (pre ++ VObj (assocSet efs "enum_opts" (VArr (map wrap ds)))
                         :: post))) /\
    trace r = [FindOne query; MarkModified (VStr f)]
              ++ (if saveEnabled then [Save (document r)] else []).
Proof.
  intros saveEnabled query ds f id fs pre efs post
    Hfind Hf Hid Hfs Hpre He wrap r. subst r wrap.
  unfold genericInject. rewrite Hfind. cbn [nullish splitField bind].
  change (f ++ ".enum_opts")%string with (f ++ String dot "enum_opts")%string.
  rewrite splitDots_app, (splitDots_single f Hf), (splitDots_single id Hid).
  cbn [app hd splitDots Ascii.eqb Bool.eqb dot].
  cbn [injectLoop deref nullish getProp]. rewrite Hfs. cbn [elementsOf bind].
  rewrite (findByIdString_found pre (VObj efs) post id 0 Hpre eq_refl He).
  cbn [bind Nat.add app deref step1 getProp injectLoop].
  rewrite !Hfs. cbv beta iota. rewrite !nth_middle.
  cbn [nullish String.eqb Ascii.eqb Bool.eqb elementsOf bind writeProp setProp
       assign step1 getProp].
  rewrite !Hfs. cbv beta iota. rewrite ?nth_middle, writeNth_middle.
  cbn [setProp injectLoop abandon bind].
  answered. split; reflexivity.
Qed.

End InjectExtra.

(** ** removeArrayDuplicates and testForDuplicates *)

Section DedupeExtra.

Variable C : Collaborators.

(** One step of the [filter] callback, through the key of the element. *)
Lemma keepFirsts_step u keys e rest :
  keepFirsts C u keys (e :: rest) =
    (key <- fieldKey C u e ;;
     match key with
     | None => kept <- keepFirsts C u keys rest ;; Done (e :: kept)
     | Some k =>
         if memString k keys || memString k objectPrototypeKeys
         then keepFirsts C u keys rest
         else kept <- keepFirsts C u (k :: keys) rest ;; Done (e :: kept)
     end).
Proof.
  cbn [keepFirsts]. unfold fieldKey.
  destruct (toStringCall C e) as [own| |]; reflexivity.
Qed.

(** The cases of a run of [keepFirsts] that ends well. *)
Lemma keepFirsts_cases u keys e rest kept :
  keepFirsts C u keys (e :: rest) = Done kept ->
  (fieldKey C u e = Done None /\
   exists kept', kept = e :: kept' /\ keepFirsts C u keys rest = Done kept') \/
  (exists k, fieldKey C u e = Done (Some k) /\
     memString k keys || memString k objectPrototypeKeys = true /\
     keepFirsts C u keys rest = Done kept) \/
  (exists k, fieldKey C u e = Done (Some k) /\
     memString k keys = false /\ memString k objectPrototypeKeys = false /\
     exists kept', kept = e :: kept' /\
                   keepFirsts C u (k :: keys) rest = Done kept').
Proof.
  rewrite keepFirsts_step.
  destruct (fieldKey C u e) as [[k|]| |]; cbn [bind]; try discriminate.
  - destruct (memString k keys || memString k objectPrototypeKeys) eqn:E.
    + intros H. right; left. exists k. auto.
    + destruct (keepFirsts C u (k :: keys) rest) as [kept'| |] eqn:E';
        cbn [bind]; try discriminate.
      intros [= <-]. apply orb_false_iff in E as [E1 E2].
      right; right. exists k. repeat split; auto. now exists kept'.
  - destruct (keepFirsts C u keys rest) as [kept'| |] eqn:E';
      cbn [bind]; try discriminate.
    intros [= <-]. left. split; [reflexivity|]. now exists kept'.
Qed.

Lemma keepFirsts_subsequence u es : forall keys kept,
  keepFirsts C u keys es = Done kept -> subsequence kept es.
Proof.
  induction es as [|e rest IH]; intros keys kept H.
  - cbn in H. injection H as <-. constructor.
  - apply keepFirsts_cases in H
      as [(_ & kept' & -> & H)|[(k & _ & _ & H)|(k & _ & _ & _ & kept' & -> & H)]].
    + apply subsequence_keep. now apply (IH keys).
    + apply subsequence_drop. now apply (IH keys).
    + apply subsequence_keep. now apply (IH (k :: keys)).
Qed.

Lemma keepFirsts_fresh u es : forall keys kept a k,
  keepFirsts C u keys es = Done kept ->
  In a kept -> fieldKey C u a = Done (Some k) ->
  memString k keys = false /\ memString k objectPrototypeKeys = false.
Proof.
  induction es as [|e rest IH]; intros keys kept a k H Hin Ha.
  - cbn in H. injection H as <-. destruct Hin.
  - apply keepFirsts_cases in H
      as [(He & kept' & -> & H)|[(k0 & _ & _ & H)
         |(k0 & He & Hk1 & Hk2 & kept' & -> & H)]].
    + destruct Hin as [<-|Hin]; [congruence|]. now apply (IH keys kept' a).
    + now apply (IH keys kept a).
    + destruct Hin as [<-|Hin].
      * rewrite He in Ha. injection Ha as <-. now split.
      * destruct (IH (k0 :: keys) kept' a k H Hin Ha) as [Hm Hp].
        split; [|exact Hp]. cbn in Hm. now apply orb_false_iff in Hm as [_ Hm].
Qed.

Lemma keepFirsts_distinct u es : forall keys kept l1 a l2 b l3 ka kb,
  keepFirsts C u keys es = Done kept ->
  kept = l1 ++ a :: l2 ++ b :: l3 ->
  fieldKey C u a = Done (Some ka) -> fieldKey C u b = Done (Some kb) ->
  String.eqb ka kb = false.
Proof.
  induction es as [|e rest IH]; intros keys kept l1 a l2 b l3 ka kb H Hk Ha Hb.
  - cbn in H. injection H as <-. now destruct l1.
  - apply keepFirsts_cases in H
      as [(He & kept' & -> & H)|[(k0 & _ & _ & H)
         |(k0 & He & Hk1 & Hk2 & kept' & -> & H)]].
    + destruct l1 as [|x l1]; injection Hk as -> ->; [congruence|].
      now apply (IH keys _ l1 a l2 b l3 ka kb H).
    + now apply (IH keys kept l1 a l2 b l3 ka kb H).
    + destruct l1 as [|x l1]; injection Hk as -> ->.
      * rewrite He in Ha. injection Ha as ->.
        destruct (keepFirsts_fresh u rest (ka :: keys) _ b kb H) as [Hm _];
          [apply in_or_app; right; now left|exact Hb|].
        cbn in Hm. apply orb_false_iff in Hm as [Hm _].
        now rewrite String.eqb_sym.
      * now apply (IH (k0 :: keys) _ l1 a l2 b l3 ka kb H).
Qed.

Lemma keepFirsts_again u es : forall keys kept keys0,
  keepFirsts C u keys es = Done kept ->
  (forall k, memString k keys0 = true -> memString k keys = true) ->
  keepFirsts C u keys0 kept = Done kept.
Proof.
  induction es as [|e rest IH]; intros keys kept keys0 H Hsub.
  - cbn in H. now injection H as <-.
  - apply keepFirsts_cases in H
      as [(He & kept' & -> & H)|[(k0 & _ & _ & H)
         |(k0 & He & Hk1 & Hk2 & kept' & -> & H)]].
    + rewrite keepFirsts_step, He. cbn [bind].
      now rewrite (IH keys kept' keys0 H Hsub).
    + now apply (IH keys).
    + rewrite keepFirsts_step, He. cbn [bind].
      assert (Hk0 : memString k0 keys0 = false).
      { destruct (memString k0 keys0) eqn:E; [|reflexivity].
        apply Hsub in E. congruence. }
      rewrite Hk0, Hk2. cbn [orb].
      rewrite (IH (k0 :: keys) kept' (k0 :: keys0) H); [reflexivity|].
      intros k. cbn. intros Hk. apply orb_true_iff in Hk as [Hk|Hk];
        apply orb_true_iff; [now left|right; now apply Hsub].
Qed.

(** What an answered run of [removeArrayDuplicates] on a document
    [{..., arrayField: es, ...}] did. *)
Lemma removeArrayDuplicates_answered saveEnabled query u arrayField fs es
  status body :
  findOne C query = Returned (VObj fs) ->
  assocGet fs (propertyKey C arrayField) = Some (VArr es) ->
  let r := removeArrayDuplicates C saveEnabled query u arrayField in
  response r = Responded status body ->
  exists kept,
    keepFirsts C u [] es = Done kept /\
    document r = VObj (assocSet fs (propertyKey C arrayField) (VArr kept)) /\
    trace r = [FindOne query; MarkModified arrayField]
              ++ (if saveEnabled then [Save (document r)] else []).
Proof.
  intros Hfind Hes r. subst r. unfold removeArrayDuplicates.
  rewrite Hfind. cbn [nullish getProp]. rewrite Hes.
  destruct (keepFirsts C u [] es) as [kept| |]; cbn [bind abandon response];
    try discriminate.
  cbn [writeProp setProp bind abandon app]. intros _. exists kept.
  split; [reflexivity|]. answered. split; reflexivity.
Qed.

(** X12.  [removeArrayDuplicates] only drops elements: the array it leaves
    in the document is a subsequence of the array it found (order kept,
    nothing added or changed), and the other fields are untouched. *)
Theorem dedupe_keeps_a_subsequence :
  forall saveEnabled query uniqueField arrayField fs es status body,
    findOne C query = Returned (VObj fs) ->
    assocGet fs (propertyKey C arrayField) = Some (VArr es) ->
    let r := removeArrayDuplicates C saveEnabled query uniqueField arrayField in
    response r = Responded status body ->
    exists kept,
      document r = VObj (assocSet fs (propertyKey C arrayField) (VArr kept)) /\
      subsequence kept es /\
      trace r = [FindOne query; MarkModified arrayField]
                ++ (if saveEnabled then [Save (document r)] else []).
Proof.
  intros saveEnabled query u arrayField fs es status body Hfind Hes r Hr.
  destruct (removeArrayDuplicates_answered saveEnabled query u arrayField fs es
              status body Hfind Hes Hr) as (kept & Hk & Hd & Ht).
  exists kept. repeat split; auto. now apply (keepFirsts_subsequence u es []).
Qed.

(** X13.  After [removeArrayDuplicates] no two elements of the array have
    the same key: whenever [a] stands before [b] in the array that is left
    and both have a key, the keys differ. *)
Theorem dedupe_keys_are_distinct :
  forall saveEnabled query uniqueField arrayField fs es status body
         l1 a l2 b l3 ka kb,
    findOne C query = Returned (VObj fs) ->
    assocGet fs (propertyKey C arrayField) = Some (VArr es) ->
    let r := removeArrayDuplicates C saveEnabled query uniqueField arrayField in
    response r = Responded status body ->
    getProp (document r) (propertyKey C arrayField) =
      VArr (l1 ++ a :: l2 ++ b :: l3) ->
    fieldKey C uniqueField a = Done (Some ka) ->
    fieldKey C uniqueField b = Done (Some kb) ->
    String.eqb ka kb = false.
Proof.
  intros saveEnabled query u arrayField fs es status body l1 a l2 b l3 ka kb
    Hfind Hes r Hr Harr Ha Hb.
  destruct (removeArrayDuplicates_answered saveEnabled query u arrayField fs es
              status body Hfind Hes Hr) as (kept & Hk & Hd & _).
  fold r in Hd. rewrite Hd in Harr. cbn [getProp] in Harr.
  rewrite assocGet_assocSet_same in Harr. injection Harr as Harr.
  exact (keepFirsts_distinct u es [] kept l1 a l2 b l3 ka kb Hk Harr Ha Hb).
Qed.

(** X14.  [removeArrayDuplicates] is idempotent: run on the document that
    an answered run left, it leaves the same document again. *)
Theorem dedupe_is_idempotent :
  forall saveEnabled query uniqueField arrayField fs es status body
         saveEnabled' query',
    findOne C query = Returned (VObj fs) ->
    assocGet fs (propertyKey C arrayField) = Some (VArr es) ->
    let r := removeArrayDuplicates C saveEnabled query uniqueField arrayField in
    response r = Responded status body ->
    findOne C query' = Returned (document r) ->
    document (removeArrayDuplicates C saveEnabled' query' uniqueField arrayField)
      = document r.
Proof.
  intros saveEnabled query u arrayField fs es status body saveEnabled' query'
    Hfind Hes r Hr Hfind'.
  destruct (removeArrayDuplicates_answered saveEnabled query u arrayField fs es
              status body Hfind Hes Hr) as (kept & Hk & Hd & _).
  fold r in Hd. rewrite Hd in *.
  unfold removeArrayDuplicates at 1. rewrite Hfind'. cbn [nullish getProp].
  rewrite assocGet_assocSet_same.
  rewrite (keepFirsts_again u es [] kept [] Hk (fun k H => H)).
  cbn [bind writeProp setProp abandon]. rewrite assocSet_assocSet.
  answered. reflexivity.
Qed.

Lemma scanDuplicates_count u es : forall keys dups keys' dups',
  scanDuplicates C u keys dups es = Done (keys', dups') ->
  List.length keys' + List.length dups' =
    List.length keys + List.length dups + List.length es.
Proof.
  induction es as [|e rest IH]; intros keys dups keys' dups' H.
  - cbn in H. injection H as <- <-. cbn. lia.
  - cbn [scanDuplicates] in H.
    destruct (nullish e); [discriminate|].
    destruct (toStringCall C _) as [key| |]; cbn [bind] in H; try discriminate.
    destruct (memString key keys || memString key objectPrototypeKeys).
    + apply IH in H. rewrite length_app in H. cbn in *. lia.
    + apply IH in H. cbn in *. lia.
Qed.

(** X15.  The report of [testForDuplicates] adds up: every element of the
    array is counted once, as a new key or as a duplicate, so that
    [originalLength = uniqeLength + duplicateObjects.length]; the handler
    calls the store only to fetch the document. *)
Theorem duplicates_report_adds_up :
  forall query field uniqueField obj body,
    findOne C query = Returned obj ->
    let r := testForDuplicates C query field uniqueField in
    response r = Responded 200 body ->
    exists originalLength uniqeLength duplicateObjects,
      body = VObj [("originalLength", VNum originalLength);
                   ("uniqeLength", VNum uniqeLength);
                   ("duplicateObjects", VArr duplicateObjects)] /\
      originalLength =
        (uniqeLength + Z.of_nat (List.length duplicateObjects))%Z /\
      trace r = [FindOne query] /\ document r = obj.
Proof.
  intros query field u obj body Hfind r. subst r.
  unfold testForDuplicates. rewrite Hfind.
  destruct (nullish obj); [discriminate|].
  destruct (elementsOf _) as [es| |]; cbn [bind response]; try discriminate.
  destruct (scanDuplicates C u [] [] es) as [[keys dups]| |] eqn:Hscan;
    cbn [bind response fst snd]; try discriminate.
  intros [= <-]. apply scanDuplicates_count in Hscan. cbn in Hscan.
  eexists _, _, _. split; [reflexivity|]. repeat split. lia.
Qed.

End DedupeExtra.

(** ** genericRefRoute *)

Lemma memString_In k l : memString k l = true <-> In k l.
Proof.
  unfold memString. rewrite existsb_exists. split.
  - intros (x & Hin & Heq). apply String.eqb_eq in Heq. now subst.
  - intros Hin. exists k. split; [exact Hin|apply String.eqb_refl].
Qed.

Lemma distinctStrings_spec l : forall seen,
  NoDup (distinctStrings seen l) /\
  (forall s, In s (distinctStrings seen l) <-> In s l /\ ~ In s seen).
Proof.
  induction l as [|x rest IH]; intros seen; cbn [distinctStrings].
  - split; [constructor|]. intros s. cbn. tauto.
  - destruct (memString x seen) eqn:E.
    + apply memString_In in E. destruct (IH seen) as [Hnd Hin].
      split; [exact Hnd|]. intros s. rewrite Hin. cbn.
      split; [tauto|]. intros [[<-|H] Hs]; tauto.
    + assert (Hx : ~ In x seen).
      { intros H. apply memString_In in H. congruence. }
      destruct (IH (x :: seen)) as [Hnd Hin]. split.
      * constructor; [|exact Hnd]. rewrite Hin. cbn. tauto.
      * intros s. cbn. rewrite Hin. cbn.
        destruct (String.eqb_spec x s) as [->|Hne]; [tauto|].
        split; [tauto|]. intros [[H|H] Hs]; [congruence|]. right. tauto.
Qed.

Section RefRouteExtra.

Variables C R : Collaborators.

(** X16.  [genericRefRoute] checks its three inputs before it calls any
    store: when [query], [refField] or [refQuery] is missing (falsy), the
    request is rejected with status 422 and neither collection was read. *)
Theorem refRoute_validates_before_reading :
  forall query refField refQuery,
    truthy query && truthy refField && truthy refQuery = false ->
    let r := genericRefRoute C R query refField refQuery in
    trace r = [] /\
    exists message, response r = Threw (HttpError 422 message).
Proof.
  intros query refField refQuery H. cbn zeta. unfold genericRefRoute.
  destruct (truthy query); cbn [negb];
    [|split; [reflexivity|eexists; reflexivity]].
  destruct (truthy refField); cbn [negb];
    [|split; [reflexivity|eexists; reflexivity]].
  destruct (truthy refQuery); cbn [negb];
    [discriminate|split; [reflexivity|eexists; reflexivity]].
Qed.

(** X17.  The second query of [genericRefRoute]: when the request is
    answered, the handler has read the first collection with [query] and
    the second with [refQuery] whose [_id] is [{$in: refIds}], where
    [refIds] holds each string of [object[refField]] exactly once. *)
Theorem refRoute_asks_for_each_reference_once :
  forall query refField fs objects strings status body,
    find C query = Returned (VArr objects) ->
    refStrings C refField objects = Done strings ->
    let r := genericRefRoute C R query refField (VObj fs) in
    response r = Responded status body ->
    exists refIds,
      trace r = [Find query;
                 Find (VObj (assocSet fs "_id"
                         (VObj [("$in", VArr (map VStr refIds))])))] /\
      NoDup refIds /\
      (forall s, In s refIds <-> In s strings).
Proof.
  intros query refField fs objects strings status body Hfind Hstrings r.
  subst r. unfold genericRefRoute.
  destruct (truthy query); cbn [negb]; [|discriminate].
  destruct (truthy refField); cbn [negb]; [|discriminate].
  cbn [truthy negb]. rewrite Hfind. cbn [elementsOf bind].
  rewrite Hstrings. cbn [bind writeProp setProp].
  destruct (find R _); cbn [response trace]; [discriminate|]. intros _.
  exists (distinctStrings [] strings).
  destruct (distinctStrings_spec strings []) as [Hnd Hin].
  split; [reflexivity|]. split; [exact Hnd|].
  intros s. rewrite Hin. cbn. tauto.
Qed.

End RefRouteExtra.

(** ** removeBid, changeEmailStatus, the counters *)

Section MoreExtra.

Variable C : Collaborators.

(** X18.  [removeBid] with a bid that is in [bidHistory]: the first bid
    with that [_id] is taken out, the others keep their order, and
    [bidHistory] is marked; without [saveEnabled] the auction is sent with
    status 500. *)
Theorem removeBid_removes_first_match :
  forall saveEnabled query modifiedBid fs pre e post hex,
    findOne C query = Returned (VObj fs) ->
    assocGet fs "bidHistory" = Some (VArr (pre ++ e :: post)) ->
    Forall (fun x => exists h, nullish x = false /\ getProp x "_id" = VId h /\
                               idEquals C h modifiedBid = false) pre ->
    nullish e = false -> getProp e "_id" = VId hex ->
    idEquals C hex modifiedBid = true ->
    let r := removeBid C saveEnabled query modifiedBid in
    document r = VObj (assocSet fs "bidHistory" (VArr (pre ++ post))) /\
    trace r = [FindOne query; MarkModified (VStr "bidHistory")]
              ++ (if saveEnabled then [Save (document r)] else []) /\
    (saveEnabled = false -> response r = Responded 500 (document r)).
Proof.
  intros saveEnabled query modifiedBid fs pre e post hex
    Hfind Hfs Hpre Hn He Heq r. subst r.
  unfold removeBid. rewrite Hfind. cbn [nullish getProp]. rewrite Hfs.
  cbn [elementsOf bind].
  rewrite (findById_found C pre e post modifiedBid hex 0 Hpre Hn He Heq).
  cbn [bind Nat.add writeProp setProp app]. rewrite removeAt_middle.
  destruct saveEnabled; cbn [negb].
  - destruct (save C _); cbn; repeat split; discriminate.
  - cbn. repeat split.
Qed.

(** X19.  [removeBid] with a bid that is not in [bidHistory] removes
    nothing and marks nothing (unlike [deleteFieldsById], it tests the
    index before [splice]); the auction is still saved with
    [saveEnabled]. *)
Theorem removeBid_unknown_bid_removes_nothing :
  forall saveEnabled query modifiedBid fs es,
    findOne C query = Returned (VObj fs) ->
    assocGet fs "bidHistory" = Some (VArr es) ->
    Forall (fun x => exists h, nullish x = false /\ getProp x "_id" = VId h /\
                               idEquals C h modifiedBid = false) es ->
    let r := removeBid C saveEnabled query modifiedBid in
    document r = VObj fs /\
    trace r = [FindOne query] ++ (if saveEnabled then [Save (VObj fs)] else []).
Proof.
  intros saveEnabled query modifiedBid fs es Hfind Hfs Hes r. subst r.
  unfold removeBid. rewrite Hfind. cbn [nullish getProp]. rewrite Hfs.
  cbn [elementsOf bind].
  destruct (findById_absent C es modifiedBid 0 Hes) as [Hnone Hundef].
  rewrite Hnone. cbn [bind]. rewrite Hundef.
  destruct saveEnabled; cbn [negb].
  - destruct (save C _); cbn; split; reflexivity.
  - cbn. split; reflexivity.
Qed.

Lemma stampEach_spec newStatus ns0 : forall reads ns,
  stampEach C newStatus reads ns0 = Done ns ->
  List.length ns = List.length ns0 /\
  forall i, i < List.length ns0 ->
    getProp (getProp (nth i ns VUndefined) "email") "status" =
      VObj [("code", newStatus); ("date", VDate (clock C (reads + i)))].
Proof.
  induction ns0 as [|n rest IH]; intros reads ns H.
  - cbn in H. injection H as <-. split; [reflexivity|]. cbn. lia.
  - cbn [stampEach] in H.
    destruct (nullish n || nullish (getProp n "email")); [discriminate|].
    destruct (writeProp (getProp n "email") "status" _) as [email| |] eqn:He;
      cbn [bind] in H; try discriminate.
    destruct (writeProp n "email" email) as [n'| |] eqn:Hn;
      cbn [bind] in H; try discriminate.
    destruct (stampEach C newStatus (S reads) rest) as [ns'| |] eqn:Hrest;
      cbn [bind] in H; try discriminate.
    injection H as <-. destruct (IH (S reads) ns' Hrest) as [Hlen Hall].
    split; [cbn; now rewrite Hlen|].
    intros [|i] Hi; cbn [nth].
    + rewrite Nat.add_0_r.
      assert (Hn' : getProp n' "email" = email).
      { destruct n; try discriminate Hn.
        cbn in Hn. injection Hn as <-. cbn. now rewrite assocGet_assocSet_same. }
      rewrite Hn'.
      destruct (getProp n "email"); try discriminate He.
      cbn in He. injection He as <-. cbn. now rewrite assocGet_assocSet_same.
    + rewrite (Hall i) by (cbn in Hi; lia). now replace (S reads + i) with (reads + S i) by lia.
Qed.

(** X20.  An answered [changeEmailStatus] sends every notification it
    found, each with [email.status = {code: newStatus, date}] where the
    dates are the successive readings of the clock; [markModified("email")]
    is called once per notification, and [save] once per notification only
    with [saveEnabled]. *)
Theorem changeEmailStatus_stamps_every_notification :
  forall saveEnabled query newStatus found status body,
    truthy newStatus = true ->
    find C query = Returned (VArr found) ->
    let r := changeEmailStatus C saveEnabled query newStatus in
    response r = Responded status body ->
    exists ns,
      status = 200%Z /\ body = VArr ns /\
      List.length ns = List.length found /\
      (forall i, i < List.length found ->
         getProp (getProp (nth i ns VUndefined) "email") "status" =
           VObj [("code", newStatus); ("date", VDate (clock C i))]) /\
      trace r = [Find query]
                ++ repeat (MarkModified (VStr "email")) (List.length found)
                ++ (if saveEnabled then map Save ns else []).
Proof.
  intros saveEnabled query newStatus found status body Hnew Hfind r. subst r.
  unfold changeEmailStatus. rewrite Hnew, Hfind. cbn [negb elementsOf bind].
  destruct (stampEach C newStatus 0 found) as [ns| |] eqn:Hstamp;
    cbn [response trace]; try discriminate.
  intros [= <- <-]. exists ns.
  destruct (stampEach_spec newStatus found 0 ns Hstamp) as [Hlen Hall].
  repeat split; auto.
  f_equal. f_equal. rewrite <- Hlen. clear.
  induction ns as [|n ns IH]; cbn; [reflexivity|now rewrite IH].
Qed.

Lemma tallyUsers_sum users : forall u g u' g',
  tallyUsers u g users = Done (u', g') ->
  (u' + g' = u + g + Z.of_nat (List.length users) /\ u <= u' /\ g <= g')%Z.
Proof.
  induction users as [|x rest IH]; intros u g u' g' H.
  - cbn in H. injection H as <- <-. cbn. lia.
  - cbn [tallyUsers] in H. destruct (nullish x); [discriminate|].
    assert (Hcases : tallyUsers u (g + 1) rest = Done (u', g') \/
                     tallyUsers (u + 1) g rest = Done (u', g')).
    { destruct (getProp x "type"); auto.
      repeat match type of H with
             | context [match ?s with EmptyString => _ | String _ _ => _ end] =>
                 destruct s; auto
             | context [match ?a with Ascii _ _ _ _ _ _ _ _ => _ end] =>
                 destruct a; auto
             | context [if ?b then _ else _] => destruct b; auto
             end. }
    cbn [List.length]. destruct Hcases as [H'|H']; apply IH in H'; lia.
Qed.

(** X21.  [countUsers] counts every user once: [numberUsers +
    numberGroups] is the number of users that [find] returned, and neither
    count is negative. *)
Theorem countUsers_counts_every_user :
  forall users body,
    find C (VObj []) = Returned (VArr users) ->
    countUsers C = Done body ->
    exists numberUsers numberGroups,
      body = VObj [("numberUsers", VNum numberUsers);
                   ("numberGroups", VNum numberGroups)] /\
      (numberUsers + numberGroups = Z.of_nat (List.length users))%Z /\
      (0 <= numberUsers)%Z /\ (0 <= numberGroups)%Z.
Proof.
  intros users body Hfind. unfold countUsers. rewrite Hfind. cbn [elementsOf bind].
  destruct (tallyUsers 0 0 users) as [[u g]| |] eqn:Ht; cbn [bind];
    try discriminate.
  intros [= <-]. apply tallyUsers_sum in Ht. exists u, g. cbn [fst snd].
  split; [reflexivity|lia].
Qed.

Lemma tallySpaces_spec spaces : forall rented available rented' available',
  tallySpaces rented available spaces = Done (rented', available') ->
  (rented' - rented = available' - available /\
   rented <= rented' <= rented + Z.of_nat (List.length spaces))%Z.
Proof.
  induction spaces as [|x rest IH]; intros r a r' a' H.
  - cbn in H. injection H as <- <-. cbn. lia.
  - cbn [tallySpaces] in H. destruct (nullish x); [discriminate|].
    destruct (elementsOf _) as [bs| |]; cbn [bind] in H; try discriminate.
    destruct (someRental bs) as [[|]| |]; cbn [bind] in H; try discriminate;
      apply IH in H; cbn [List.length]; lia.
Qed.

(** X22.  In the report of [countSpaces], [numberSpacesAvailable] always
    equals [numberSpacesRented] (both are incremented for a space with a
    rental booking, and nowhere else), and neither exceeds
    [numberSpacesCreated], the number of spaces found. *)
Theorem countSpaces_available_equals_rented :
  forall spaces body,
    find C (VObj []) = Returned (VArr spaces) ->
    countSpaces C = Done body ->
    exists rented,
      body = VObj [("numberSpacesCreated", VNum (Z.of_nat (List.length spaces)));
                   ("numberSpacesRented", VNum rented);
                   ("numberSpacesAvailable", VNum rented)] /\
      (0 <= rented <= Z.of_nat (List.length spaces))%Z.
Proof.
  intros spaces body Hfind. unfold countSpaces. rewrite Hfind.
  cbn [elementsOf bind].
  destruct (tallySpaces 0 0 spaces) as [[r a]| |] eqn:Ht; cbn [bind];
    try discriminate.
  intros [= <-]. apply tallySpaces_spec in Ht. exists r. cbn [fst snd].
  replace a with r by lia. split; [reflexivity|lia].
Qed.

End MoreExtra.

(** ** addUniqueValuesToList and pushArrayValue *)

Section ListExtra.

Variable C : Collaborators.

Lemma addEach_appends ids : forall es es',
  addEach C es ids = Done es' ->
  exists added,
    es' = es ++ added /\
    List.length added <= List.length ids /\
    forall x, In x added ->
      exists id hex, In id ids /\ ObjectId C id = Some hex /\ x = VId hex.
Proof.
  induction ids as [|id rest IH]; intros es es' H.
  - cbn in H. injection H as <-. exists []. rewrite app_nil_r.
    repeat split; auto. intros x [].
  - cbn [addEach] in H.
    destruct (findEqual C es id) as [[|]| |]; cbn [bind] in H; try discriminate.
    + destruct (IH es es' H) as (added & -> & Hlen & Hall).
      exists added. repeat split; [cbn; lia|].
      intros x Hx. destruct (Hall x Hx) as (i & hex & Hi & Ho & ->).
      exists i, hex. repeat split; auto. now right.
    + destruct (ObjectId C id) as [hex|] eqn:Ho; [|discriminate].
      destruct (IH (es ++ [VId hex]) es' H) as (added & -> & Hlen & Hall).
      exists (VId hex :: added). rewrite <- app_assoc. repeat split.
      * cbn. lia.
      * intros x [<-|Hx].
        -- exists id, hex. repeat split; auto. now left.
        -- destruct (Hall x Hx) as (i & h & Hi & Hh & ->).
           exists i, h. repeat split; auto. now right.
Qed.

(** X23.  [addUniqueValuesToList] on a field that holds an array only
    appends: the values already in the array stay where they are, at most
    one element is added per given id, and every added element is the
    [ObjectId] of a given id.  [markModified] is only reached when the
    document is saved. *)
Theorem addUnique_only_appends :
  forall saveEnabled query f ids fs es status body,
    findOne C query = Returned (VObj fs) ->
    hasDot f = false ->
    assocGet fs f = Some (VArr es) ->
    let r := addUniqueValuesToList C saveEnabled query (VStr f) (VArr ids) in
    response r = Responded status body ->
    exists added,
      getProp (document r) f = VArr (es ++ added) /\
      List.length added <= List.length ids /\
      (forall x, In x added ->
         exists id hex, In id ids /\ ObjectId C id = Some hex /\ x = VId hex) /\
      trace r = [FindOne query]
                ++ (if saveEnabled
                    then [MarkModified (VStr f); Save (document r)] else []).
Proof.
  intros saveEnabled query f ids fs es status body Hfind Hf Hfs r. subst r.
  unfold addUniqueValuesToList. rewrite Hfind.
  cbn [nullish splitField bind elementsOf]. rewrite (splitDots_single f Hf).
  cbn [followFields getProp hd]. rewrite Hfs.
  cbn [nullish followFields followUndefined].
  destruct ids as [|id rest].
  - cbn [abandon]. intros _. exists []. rewrite app_nil_r.
    assert (Hget : getProp (VObj fs) f = VArr es) by (cbn; now rewrite Hfs).
    destruct saveEnabled; cbn [negb].
    + unfold respondOrSave. cbn [negb].
      destruct (save C (VObj fs)); cbn; repeat split; auto; intros x [].
    + cbn. repeat split; auto. intros x [].
  - cbn [deref step1 getProp]. rewrite Hfs. cbn [elementsOf bind].
    destruct (addEach C es (id :: rest)) as [es'| |] eqn:Hadd;
      cbn [bind abandon response]; try discriminate.
    destruct (addEach_appends (id :: rest) es es' Hadd)
      as (added & -> & Hlen & Hall).
    cbn [assign step1 getProp setProp abandon]. intros _. exists added.
    assert (Hget : getProp (VObj (assocSet fs f (VArr (es ++ added)))) f =
                   VArr (es ++ added))
      by (cbn; now rewrite assocGet_assocSet_same).
    destruct saveEnabled; cbn [negb].
    + unfold respondOrSave. cbn [negb].
      destruct (save C _); cbn [document trace app]; repeat split; auto.
    + cbn [document trace app]. repeat split; auto.
Qed.

Lemma convertIds_spec idFields : forall vs v',
  convertIds C (VObj vs) idFields = Done v' ->
  exists vs',
    v' = VObj vs' /\
    (forall f, In f idFields ->
       exists hex, assocGet vs' (propertyKey C f) = Some (VId hex)) /\
    (forall k hex, assocGet vs k = Some (VId hex) ->
       exists hex', assocGet vs' k = Some (VId hex')) /\
    (forall k, (forall f, In f idFields -> propertyKey C f <> k) ->
       assocGet vs' k = assocGet vs k).
Proof.
  induction idFields as [|f rest IH]; intros vs v' H.
  - cbn in H. injection H as <-. exists vs. repeat split; eauto. intros f [].
  - cbn [convertIds nullish] in H.
    destruct (ObjectId C _) as [hex|]; [|discriminate].
    cbn [writeProp setProp bind] in H.
    destruct (IH _ v' H) as (vs' & -> & Hids & Hkeep & Hframe).
    exists vs'. split; [reflexivity|]. repeat split.
    + intros f0 [<-|Hin]; [|now apply Hids].
      apply (Hkeep _ hex), assocGet_assocSet_same.
    + intros k h Hk. destruct (String.eqb_spec k (propertyKey C f)) as [->|Hne].
      * apply (Hkeep _ hex), assocGet_assocSet_same.
      * apply (Hkeep k h). now rewrite assocGet_assocSet_other.
    + intros k Hk. rewrite Hframe by (intros f0 Hin; apply Hk; now right).
      apply assocGet_assocSet_other. intros ->. now apply (Hk f); [left|].
Qed.

(** X24.  [pushArrayValue] with a list [idValues] of field names and an
    object [value]: the element appended to the array is [value] with every
    named field converted to an [ObjectId] and every other field as given;
    the elements that were in the array are kept. *)
Theorem pushArrayValue_converts_named_fields :
  forall saveEnabled query field vs idFields fs es status body,
    findOne C query = Returned (VObj fs) ->
    assocGet fs (propertyKey C field) = Some (VArr es) ->
    let r := pushArrayValue C saveEnabled query field (VObj vs) (VArr idFields) in
    response r = Responded status body ->
    exists vs',
      document r =
        VObj (assocSet fs (propertyKey C field) (VArr (es ++ [VObj vs']))) /\
      (forall f, In f idFields ->
         exists hex, assocGet vs' (propertyKey C f) = Some (VId hex)) /\
      (forall k, (forall f, In f idFields -> propertyKey C f <> k) ->
         assocGet vs' k = assocGet vs k) /\
      trace r = [FindOne query; MarkModified field]
                ++ (if saveEnabled then [Save (document r)] else []).
Proof.
  intros saveEnabled query field vs idFields fs es status body Hfind Hfs r.
  subst r. unfold pushArrayValue. rewrite Hfind.
  cbn [nullish getProp elementsOf bind]. rewrite Hfs.
  destruct (convertIds C (VObj vs) idFields) as [v'| |] eqn:Hconv;
    cbn [response]; try discriminate.
  destruct (convertIds_spec idFields vs v' Hconv)
    as (vs' & -> & Hids & _ & Hframe).
  cbn [elementsOf bind writeProp setProp abandon app]. intros _.
  exists vs'. answered. repeat split; auto.
Qed.

End ListExtra.

(** ** The loop of genericTranslate *)

(** X25.  The loop that the callback of [genericTranslate] runs when it is
    handed an error and a list of documents: an update
    [{fromField: a, toField: b}] between two different top-level fields
    moves the value of [a] to [b] (afterwards [a] is no own property, [b]
    holds the value, every other field is unchanged), marks [a] and then
    [b], and saves the document; no response is sent. *)
Theorem translate_moves_a_field :
  forall calls m fs a b v,
    hasDot a = false -> hasDot b = false -> a <> b ->
    assocGet fs a = Some v -> nullish v = false ->
    let update := VObj [("fromField", VStr a); ("toField", VStr b)] in
    let r := translateCallback (VArr [update]) calls (VError m) (VArr [VObj fs]) in
    exists o,
      document r = VArr [o] /\
      getProp o b = v /\
      hasOwn o a = false /\
      (forall k, k <> a -> k <> b -> getProp o k = getProp (VObj fs) k) /\
      trace r = calls ++ [MarkModified (VStr a); MarkModified (VStr b); Save o] /\
      response r = NoResponse.
Proof.
  intros calls m fs a b v Ha Hb Hab Hfs Hv update r. subst r update.
  exists (VObj (assocSet (assocDelete fs a) b v)).
  unfold translateCallback.
  cbn [nullish elementsOf translateObjects bind translateUpdates].
  unfold translateOne.
  cbn [nullish getProp assocGet String.eqb Ascii.eqb Bool.eqb splitField bind].
  rewrite (splitDots_single a Ha), (splitDots_single b Hb).
  cbn [followTokens deref nullish hd last getProp deleteProp bind assign
       fst snd]. rewrite Hfs.
  cbn [followTokens deref nullish negb andb]. rewrite Hv.
  cbn [negb andb writeProp setProp bind assign fst snd translateUpdates
       nullish translateObjects app document trace response].
  repeat split.
  - cbn [getProp]. now rewrite assocGet_assocSet_same.
  - cbn [hasOwn]. rewrite assocGet_assocSet_other by exact Hab.
    now rewrite assocGet_assocDelete_same.
  - intros k Hka Hkb. cbn [getProp].
    rewrite assocGet_assocSet_other by exact Hkb.
    now rewrite assocGet_assocDelete_other.
Qed.

(** ** The theorems above on concrete requests *)

(** [{profile.tags[0]: {$push: "b"}}] on [{profile: {tags: [["a"]]}}]. *)
Lemma push_on_array_example :
  let D := VObj [("profile", VObj [("tags", VArr [VArr [VStr "a"]])])] in
  let st := mkState D 0 [] in
  exists o,
    applyChange (singleDocument D) st "profile.tags[0]"
      (VObj [("$push", VStr "b")]) =
      Next (mkState o 0 [MarkModified (VStr "profile")]) /\
    (forall d, Lodash.get o "profile.tags[0]" d = Some (VArr [VStr "a"; VStr "b"])).
Proof.
  exact (push_on_array_appends
           (singleDocument
              (VObj [("profile", VObj [("tags", VArr [VArr [VStr "a"]])])]))
           (mkState
              (VObj [("profile", VObj [("tags", VArr [VArr [VStr "a"]])])]) 0 [])
           [("profile", VObj [("tags", VArr [VArr [VStr "a"]])])]
           "profile.tags[0]" (VStr "b") [VStr "a"] "profile" ["tags"; "0"]
           eq_refl eq_refl eq_refl).
Defined.

(** Two changes, [a] and [b[0].c], with [saveEnabled]. *)
Lemma changes_are_marked_example :
  let C := singleDocument (VObj [("a", VNum 0)]) in
  let changes := VObj [("a", VObj [("$set", VNum 1)]);
                       ("b[0].c", VObj [("$set", VNum 2)])] in
  let r := genericChangeField C true (VObj []) changes in
  trace r =
    [FindOne (VObj []); MarkModified (VStr "a"); MarkModified (VStr "b");
     Save (document r)].
Proof.
  exact (changes_are_marked_in_order
           (singleDocument (VObj [("a", VNum 0)])) true (VObj [])
           (VObj [("a", VObj [("$set", VNum 1)]);
                  ("b[0].c", VObj [("$set", VNum 2)])])
           [("a", VObj [("$set", VNum 1)]); ("b[0].c", VObj [("$set", VNum 2)])]
           201 (VObj [("a", VNum 1); ("b", VArr [VObj [("c", VNum 2)]])])
           eq_refl eq_refl).
Defined.

(** The second of three changes pushes onto a number. *)
Lemma failed_change_example :
  let D := VObj [("count", VNum 5)] in
  let changes := VObj [("name", VObj [("$set", VStr "n")]);
                       ("count", VObj [("$push", VStr "c")]);
                       ("z", VObj [("$set", VNum 1)])] in
  let calls := [FindOne (VObj []); MarkModified (VStr "name")] in
  genericChangeField (singleDocument D) true (VObj []) changes =
    mkRun (Threw (HttpError 500 "count is not an array")) calls
      (VObj [("count", VNum 5); ("name", VStr "n")]) /\
  writes calls = [].
Proof.
  exact (failed_change_is_not_saved
           (singleDocument (VObj [("count", VNum 5)])) true (VObj [])
           (VObj [("name", VObj [("$set", VStr "n")]);
                  ("count", VObj [("$push", VStr "c")]);
                  ("z", VObj [("$set", VNum 1)])])
           (VObj [("count", VNum 5)])
           [("name", VObj [("$set", VStr "n")]);
            ("count", VObj [("$push", VStr "c")])]
           [("z", VObj [("$set", VNum 1)])]
           (mkState (VObj [("count", VNum 5); ("name", VStr "n")]) 0
              [FindOne (VObj []); MarkModified (VStr "name")])
           (HttpError 500 "count is not an array")
           eq_refl eq_refl eq_refl).
Defined.

(** [{a[0]: {$set: 3}}] on [{a: 1, b: 2}] leaves [b]. *)
Lemma change_touches_one_field_example :
  let D := VObj [("a", VNum 1); ("b", VNum 2)] in
  let st1 := mkState (VObj [("a", VArr [VNum 3]); ("b", VNum 2)]) 0
               [MarkModified (VStr "a")] in
  applyChange (singleDocument D) (mkState D 0 []) "a[0]" (VObj [("$set", VNum 3)])
    = Next st1 /\
  getProp (object st1) "b" = getProp D "b".
Proof.
  split; [reflexivity|].
  apply (change_touches_one_field
           (singleDocument (VObj [("a", VNum 1); ("b", VNum 2)]))
           (mkState (VObj [("a", VNum 1); ("b", VNum 2)]) 0 [])
           [("a", VNum 1); ("b", VNum 2)] "a[0]" (VObj [("$set", VNum 3)])
           (mkState (VObj [("a", VArr [VNum 3]); ("b", VNum 2)]) 0
              [MarkModified (VStr "a")])
           "a" ["0"] "b");
    [reflexivity | reflexivity | reflexivity | discriminate].
Defined.

(** A delete request without a query. *)
Lemma deleteRoute_without_query_example :
  let r := genericDeleteRoute (singleDocument itemsDocument) true VUndefined
             (VArr [VStr "items"]) VUndefined VUndefined VUndefined in
  trace r = [] /\
  (response r = Responded 400 (VStr "Nothing to delete!") \/
   response r = Responded 500 (VStr "No query")).
Proof.
  exact (deleteRoute_without_query_leaves_store (singleDocument itemsDocument)
           true VUndefined (VArr [VStr "items"]) VUndefined VUndefined VUndefined
           eq_refl).
Defined.

(** [deleteFields: ["a", "c"]] on [{a: 1, b: 2, c: 3}]. *)
Lemma deleteFields_example :
  let D := [("a", VNum 1); ("b", VNum 2); ("c", VNum 3)] in
  let C := singleDocument (VObj D) in
  let fields := [VStr "a"; VStr "c"] in
  let r := genericDeleteRoute C true (VObj []) (VArr fields)
             VUndefined VUndefined VUndefined in
  (forall f, In f fields -> hasOwn (document r) (propertyKey C f) = false) /\
  (forall k, (forall f, In f fields -> propertyKey C f <> k) ->
     getProp (document r) k = getProp (VObj D) k) /\
  trace r = [FindOne (VObj [])] ++ map MarkModified fields ++ [Save (document r)].
Proof.
  exact (deleteFields_removes_the_fields
           (singleDocument (VObj [("a", VNum 1); ("b", VNum 2); ("c", VNum 3)]))
           true (VObj []) [VStr "a"; VStr "c"] VUndefined VUndefined VUndefined
           [("a", VNum 1); ("b", VNum 2); ("c", VNum 3)]
           eq_refl eq_refl eq_refl eq_refl).
Defined.

(** [deleteFieldsById: [{field: "items", id: "i1"}]] on the two items. *)
Lemma deleteFieldsById_example :
  let descriptor := VObj [("field", VStr "items"); ("id", VStr "i1")] in
  let r := genericDeleteRoute (singleDocument itemsDocument) false (VObj [])
             VUndefined (VArr [descriptor]) VUndefined VUndefined in
  document r = VObj [("items", VArr [VObj [("_id", VId "i2")]])] /\
  trace r = [FindOne (VObj []); MarkModified descriptor].
Proof.
  apply (deleteFieldsById_removes_first_match (singleDocument itemsDocument)
           false (VObj []) VUndefined VUndefined VUndefined
           [("items", VArr [VObj [("_id", VId "i1")]; VObj [("_id", VId "i2")]])]
           "items" (VStr "i1") [] (VObj [("_id", VId "i1")])
           [VObj [("_id", VId "i2")]] "i1");
    first [reflexivity | constructor].
Defined.

(** The same request with an id that no item has. *)
Lemma deleteFieldsById_unknown_id_example :
  let descriptor := VObj [("field", VStr "items"); ("id", VStr "zz")] in
  let r := genericDeleteRoute (singleDocument itemsDocument) false (VObj [])
             VUndefined (VArr [descriptor]) VUndefined VUndefined in
  document r = VObj [("items", VArr [VObj [("_id", VId "i1")]])] /\
  trace r = [FindOne (VObj []); MarkModified descriptor].
Proof.
  apply (deleteFieldsById_unknown_id_removes_last (singleDocument itemsDocument)
           false (VObj []) VUndefined VUndefined VUndefined
           [("items", VArr [VObj [("_id", VId "i1")]; VObj [("_id", VId "i2")]])]
           "items" (VStr "zz")
           [VObj [("_id", VId "i1")]; VObj [("_id", VId "i2")]]);
    try reflexivity.
  repeat constructor; eexists; repeat split; reflexivity.
Defined.

(** The path ["a.b.c"] read in one go and in two. *)
Lemma dotTraverse_example :
  let tree := VObj [("a", VObj [("b", VObj [("c", VNum 1)])])] in
  dotTraverse tree (VStr "a.b.c") = Done (VNum 1) /\
  dotTraverse tree (VStr "a.b.c") =
    (branch <- dotTraverse tree (VStr "a") ;; dotTraverse branch (VStr "b.c")).
Proof.
  split; [reflexivity|].
  apply (dotTraverse_composes
           (VObj [("a", VObj [("b", VObj [("c", VNum 1)])])]) "a" "b.c");
    discriminate.
Defined.

(** [injectToField: "items"] with [injectToFieldId: "i1"]. *)
Lemma inject_without_spare_field_example :
  let r := genericInject (singleDocument nestedDocument) false (VObj [])
             (VArr [VStr "new"]) (VStr "items") (VStr "i1") in
  document r = nestedDocument /\
  trace r = [FindOne (VObj []); MarkModified (VStr "items")].
Proof.
  apply (inject_without_spare_field_changes_nothing
           (singleDocument nestedDocument) false (VObj []) (VArr [VStr "new"])
           "items" "i1" nestedDocument 200 nestedDocument);
    [reflexivity | reflexivity | apply le_n | reflexivity].
Defined.

(** [injectToField: "questions.enum_opts"] with the id of the question. *)
Lemma inject_enum_opts_example :
  let r := genericInject (singleDocument questionsDocument) false (VObj [])
             (VArr [VStr "yes"; VStr "no"])
             (VStr "questions.enum_opts") (VStr "q1") in
  document r =
    VObj [("questions",
           VArr [VObj [("_id", VId "q1");
                       ("enum_opts",
                        VArr [VArr [VObj [("text", VStr "yes");
                                          ("language", VStr "en")]];
                              VArr [VObj [("text", VStr "no");
                                          ("language", VStr "en")]]])]])] /\
  trace r = [FindOne (VObj []); MarkModified (VStr "questions")].
Proof.
  apply (inject_enum_opts_replaces_the_options
           (singleDocument questionsDocument) false (VObj [])
           [VStr "yes"; VStr "no"] "questions" "q1"
           [("questions",
             VArr [VObj [("_id", VId "q1"); ("enum_opts", VArr [VStr "old"])]])]
           [] [("_id", VId "q1"); ("enum_opts", VArr [VStr "old"])] []);
    first [reflexivity | constructor].
Defined.

(** [removeArrayDuplicates] by [k] on items with the keys x, y, x. *)
Lemma dedupe_subsequence_example :
  let C := singleDocument pairsDocument in
  let r := removeArrayDuplicates C false (VObj []) (VStr "k") (VStr "items") in
  exists kept,
    document r = VObj (assocSet [("items",
                   VArr [VObj [("k", VStr "x")]; VObj [("k", VStr "y")];
                         VObj [("k", VStr "x"); ("again", VBool true)]])]
                   "items" (VArr kept)) /\
    subsequence kept
      [VObj [("k", VStr "x")]; VObj [("k", VStr "y")];
       VObj [("k", VStr "x"); ("again", VBool true)]] /\
    trace r = [FindOne (VObj []); MarkModified (VStr "items")].
Proof.
  exact (dedupe_keeps_a_subsequence (singleDocument pairsDocument) false
           (VObj []) (VStr "k") (VStr "items")
           [("items",
             VArr [VObj [("k", VStr "x")]; VObj [("k", VStr "y")];
                   VObj [("k", VStr "x"); ("again", VBool true)]])]
           [VObj [("k", VStr "x")]; VObj [("k", VStr "y")];
            VObj [("k", VStr "x"); ("again", VBool true)]]
           200
           (VObj [("items", VArr [VObj [("k", VStr "x")]; VObj [("k", VStr "y")]])])
           eq_refl eq_refl eq_refl).
Defined.

(** The two items that are left have the keys x and y. *)
Lemma dedupe_distinct_example :
  let C := singleDocument pairsDocument in
  let r := removeArrayDuplicates C false (VObj []) (VStr "k") (VStr "items") in
  getProp (document r) "items" =
    VArr [VObj [("k", VStr "x")]; VObj [("k", VStr "y")]] /\
  fieldKey C (VStr "k") (VObj [("k", VStr "x")]) = Done (Some "x") /\
  fieldKey C (VStr "k") (VObj [("k", VStr "y")]) = Done (Some "y") /\
  String.eqb "x" "y" = false.
Proof.
  split; [reflexivity|]. split; [reflexivity|]. split; [reflexivity|].
  exact (dedupe_keys_are_distinct (singleDocument pairsDocument) false
           (VObj []) (VStr "k") (VStr "items")
           [("items",
             VArr [VObj [("k", VStr "x")]; VObj [("k", VStr "y")];
                   VObj [("k", VStr "x"); ("again", VBool true)]])]
           [VObj [("k", VStr "x")]; VObj [("k", VStr "y")];
            VObj [("k", VStr "x"); ("again", VBool true)]]
           200
           (VObj [("items", VArr [VObj [("k", VStr "x")]; VObj [("k", VStr "y")]])])
           [] (VObj [("k", VStr "x")]) [] (VObj [("k", VStr "y")]) [] "x" "y"
           eq_refl eq_refl eq_refl eq_refl eq_refl eq_refl).
Defined.

(** A second run, on the document that the first run left. *)
Lemma dedupe_idempotent_example :
  let deduped :=
    VObj [("items", VArr [VObj [("k", VStr "x")]; VObj [("k", VStr "y")]])] in
  let C := twoDocuments pairsDocument deduped in
  document (removeArrayDuplicates C false (VNum 1) (VStr "k") (VStr "items"))
    = deduped /\
  document (removeArrayDuplicates C true (VNum 2) (VStr "k") (VStr "items"))
    = document (removeArrayDuplicates C false (VNum 1) (VStr "k") (VStr "items")).
Proof.
  split; [reflexivity|].
  exact (dedupe_is_idempotent
           (twoDocuments pairsDocument
              (VObj [("items",
                      VArr [VObj [("k", VStr "x")]; VObj [("k", VStr "y")]])]))
           false (VNum 1) (VStr "k") (VStr "items")
           [("items",
             VArr [VObj [("k", VStr "x")]; VObj [("k", VStr "y")];
                   VObj [("k", VStr "x"); ("again", VBool true)]])]
           [VObj [("k", VStr "x")]; VObj [("k", VStr "y")];
            VObj [("k", VStr "x"); ("again", VBool true)]]
           200
           (VObj [("items", VArr [VObj [("k", VStr "x")]; VObj [("k", VStr "y")]])])
           true (VNum 2) eq_refl eq_refl eq_refl eq_refl).
Defined.

(** The report on the same items: three elements, two keys, one duplicate. *)
Lemma duplicates_report_example :
  let C := singleDocument pairsDocument in
  let r := testForDuplicates C (VObj []) (VStr "items") (VStr "k") in
  exists originalLength uniqeLength duplicateObjects,
    VObj [("originalLength", VNum 3); ("uniqeLength", VNum 2);
          ("duplicateObjects",
           VArr [VObj [("k", VStr "x"); ("again", VBool true)]])] =
    VObj [("originalLength", VNum originalLength);
          ("uniqeLength", VNum uniqeLength);
          ("duplicateObjects", VArr duplicateObjects)] /\
    originalLength = (uniqeLength + Z.of_nat (List.length duplicateObjects))%Z /\
    trace r = [FindOne (VObj [])] /\ document r = pairsDocument.
Proof.
  exact (duplicates_report_adds_up (singleDocument pairsDocument)
           (VObj []) (VStr "items") (VStr "k") pairsDocument
           (VObj [("originalLength", VNum 3); ("uniqeLength", VNum 2);
                  ("duplicateObjects",
                   VArr [VObj [("k", VStr "x"); ("again", VBool true)]])])
           eq_refl eq_refl).
Defined.

(** A reference request without [refField]. *)
Lemma refRoute_validation_example :
  let C := singleDocument itemsDocument in
  let r := genericRefRoute C C (VObj []) (VStr "") (VObj []) in
  trace r = [] /\ exists message, response r = Threw (HttpError 422 message).
Proof.
  exact (refRoute_validates_before_reading (singleDocument itemsDocument)
           (singleDocument itemsDocument) (VObj []) (VStr "") (VObj []) eq_refl).
Defined.

(** Two objects with the same owner ask for that owner once. *)
Lemma refRoute_example :
  let order := VObj [("owner", VId "u1")] in
  let C := twoDocuments order order in
  let R := singleDocument (VObj [("_id", VId "u1")]) in
  let r := genericRefRoute C R (VObj []) (VStr "owner")
             (VObj [("active", VBool true)]) in
  exists refIds,
    trace r = [Find (VObj []);
               Find (VObj (assocSet [("active", VBool true)] "_id"
                       (VObj [("$in", VArr (map VStr refIds))])))] /\
    NoDup refIds /\
    (forall s, In s refIds <-> In s ["u1"; "u1"]).
Proof.
  exact (refRoute_asks_for_each_reference_once
           (twoDocuments (VObj [("owner", VId "u1")]) (VObj [("owner", VId "u1")]))
           (singleDocument (VObj [("_id", VId "u1")]))
           (VObj []) (VStr "owner") [("active", VBool true)]
           [VObj [("owner", VId "u1")]; VObj [("owner", VId "u1")]]
           ["u1"; "u1"] 200 (VArr [VObj [("_id", VId "u1")]])
           eq_refl eq_refl eq_refl).
Defined.

(** The second of three bids is removed. *)
Lemma removeBid_example :
  let r := removeBid (singleDocument auctionDocument) false (VObj []) (VStr "b2") in
  document r =
    VObj [("bidHistory", VArr [VObj [("_id", VId "b1")]; VObj [("_id", VId "b3")]])] /\
  trace r = [FindOne (VObj []); MarkModified (VStr "bidHistory")] /\
  (false = false -> response r = Responded 500 (document r)).
Proof.
  apply (removeBid_removes_first_match (singleDocument auctionDocument) false
           (VObj []) (VStr "b2")
           [("bidHistory",
             VArr [VObj [("_id", VId "b1")]; VObj [("_id", VId "b2")];
                   VObj [("_id", VId "b3")]])]
           [VObj [("_id", VId "b1")]] (VObj [("_id", VId "b2")])
           [VObj [("_id", VId "b3")]] "b2");
    try reflexivity.
  repeat constructor; eexists; repeat split; reflexivity.
Defined.

(** A bid that is not in the history. *)
Lemma removeBid_unknown_bid_example :
  let r := removeBid (singleDocument auctionDocument) true (VObj []) (VStr "zz") in
  document r = auctionDocument /\
  trace r = [FindOne (VObj []); Save auctionDocument].
Proof.
  apply (removeBid_unknown_bid_removes_nothing (singleDocument auctionDocument)
           true (VObj []) (VStr "zz")
           [("bidHistory",
             VArr [VObj [("_id", VId "b1")]; VObj [("_id", VId "b2")];
                   VObj [("_id", VId "b3")]])]
           [VObj [("_id", VId "b1")]; VObj [("_id", VId "b2")];
            VObj [("_id", VId "b3")]]);
    try reflexivity.
  repeat constructor; eexists; repeat split; reflexivity.
Defined.

(** Two notifications, stamped at the clock readings 1000 and 1001. *)
Lemma changeEmailStatus_example :
  let C := twoDocuments notificationDocument notificationDocument in
  let r := changeEmailStatus C true (VObj []) (VStr "sent") in
  exists ns,
    200%Z = 200%Z /\
    VArr [VObj [("email", VObj [("to", VStr "a@b.c");
                   ("status", VObj [("code", VStr "sent"); ("date", VDate 1000)])])];
          VObj [("email", VObj [("to", VStr "a@b.c");
                   ("status", VObj [("code", VStr "sent"); ("date", VDate 1001)])])]]
      = VArr ns /\
    List.length ns = 2 /\
    (forall i, i < 2 ->
       getProp (getProp (nth i ns VUndefined) "email") "status" =
         VObj [("code", VStr "sent"); ("date", VDate (clock C i))]) /\
    trace r = [Find (VObj [])]
              ++ [MarkModified (VStr "email"); MarkModified (VStr "email")]
              ++ map Save ns.
Proof.
  exact (changeEmailStatus_stamps_every_notification
           (twoDocuments notificationDocument notificationDocument)
           true (VObj []) (VStr "sent")
           [notificationDocument; notificationDocument] 200
           (VArr [VObj [("email", VObj [("to", VStr "a@b.c");
                    ("status", VObj [("code", VStr "sent"); ("date", VDate 1000)])])];
                  VObj [("email", VObj [("to", VStr "a@b.c");
                    ("status", VObj [("code", VStr "sent"); ("date", VDate 1001)])])]])
           eq_refl eq_refl eq_refl).
Defined.

(** One company and one person. *)
Lemma countUsers_example :
  let C := twoDocuments (VObj [("type", VStr "company")])
             (VObj [("type", VStr "person")]) in
  countUsers C = Done (VObj [("numberUsers", VNum 1); ("numberGroups", VNum 1)]) /\
  exists numberUsers numberGroups,
    VObj [("numberUsers", VNum 1); ("numberGroups", VNum 1)] =
    VObj [("numberUsers", VNum numberUsers); ("numberGroups", VNum numberGroups)] /\
    (numberUsers + numberGroups = 2)%Z /\
    (0 <= numberUsers)%Z /\ (0 <= numberGroups)%Z.
Proof.
  split; [reflexivity|].
  exact (countUsers_counts_every_user
           (twoDocuments (VObj [("type", VStr "company")])
              (VObj [("type", VStr "person")]))
           [VObj [("type", VStr "company")]; VObj [("type", VStr "person")]]
           (VObj [("numberUsers", VNum 1); ("numberGroups", VNum 1)])
           eq_refl eq_refl).
Defined.

(** One space with a rental booking and one without bookings. *)
Lemma countSpaces_example :
  let rentedSpace :=
    VObj [("client_bookings", VArr [VObj [("bookingType", VStr "rental")]])] in
  let freeSpace := VObj [("client_bookings", VArr [])] in
  let C := twoDocuments rentedSpace freeSpace in
  exists rented,
    VObj [("numberSpacesCreated", VNum 2); ("numberSpacesRented", VNum 1);
          ("numberSpacesAvailable", VNum 1)] =
    VObj [("numberSpacesCreated", VNum 2); ("numberSpacesRented", VNum rented);
          ("numberSpacesAvailable", VNum rented)] /\
    (0 <= rented <= 2)%Z.
Proof.
  exact (countSpaces_available_equals_rented
           (twoDocuments
              (VObj [("client_bookings",
                      VArr [VObj [("bookingType", VStr "rental")]])])
              (VObj [("client_bookings", VArr [])]))
           [VObj [("client_bookings", VArr [VObj [("bookingType", VStr "rental")]])];
            VObj [("client_bookings", VArr [])]]
           (VObj [("numberSpacesCreated", VNum 2); ("numberSpacesRented", VNum 1);
                  ("numberSpacesAvailable", VNum 1)])
           eq_refl eq_refl).
Defined.

(** One id that the list holds and one that it does not. *)
Lemma addUnique_example :
  let C := singleDocument membersDocument in
  let ids := [VStr "aaaaaaaaaaaaaaaaaaaaaaaa"; VStr "bbbbbbbbbbbbbbbbbbbbbbbb"] in
  let r := addUniqueValuesToList C true (VObj []) (VStr "members") (VArr ids) in
  exists added,
    getProp (document r) "members" =
      VArr ([VId "aaaaaaaaaaaaaaaaaaaaaaaa"] ++ added) /\
    List.length added <= 2 /\
    (forall x, In x added ->
       exists id hex, In id ids /\ ObjectId C id = Some hex /\ x = VId hex) /\
    trace r = [FindOne (VObj []); MarkModified (VStr "members"); Save (document r)].
Proof.
  exact (addUnique_only_appends (singleDocument membersDocument) true (VObj [])
           "members"
           [VStr "aaaaaaaaaaaaaaaaaaaaaaaa"; VStr "bbbbbbbbbbbbbbbbbbbbbbbb"]
           [("members", VArr [VId "aaaaaaaaaaaaaaaaaaaaaaaa"])]
           [VId "aaaaaaaaaaaaaaaaaaaaaaaa"] 200
           (VObj [("members", VArr [VId "aaaaaaaaaaaaaaaaaaaaaaaa";
                                    VId "bbbbbbbbbbbbbbbbbbbbbbbb"])])
           eq_refl eq_refl eq_refl eq_refl).
Defined.

(** A pushed value whose [owner] is named in [idValues]. *)
Lemma pushArrayValue_example :
  let C := singleDocument membersDocument in
  let v := [("owner", VStr "aaaaaaaaaaaaaaaaaaaaaaaa"); ("n", VNum 1)] in
  let idFields := [VStr "owner"] in
  let r := pushArrayValue C false (VObj []) (VStr "members") (VObj v)
             (VArr idFields) in
  exists vs',
    document r =
      VObj (assocSet [("members", VArr [VId "aaaaaaaaaaaaaaaaaaaaaaaa"])]
              "members"
              (VArr ([VId "aaaaaaaaaaaaaaaaaaaaaaaa"] ++ [VObj vs']))) /\
    (forall f, In f idFields ->
       exists hex, assocGet vs' (propertyKey C f) = Some (VId hex)) /\
    (forall k, (forall f, In f idFields -> propertyKey C f <> k) ->
       assocGet vs' k = assocGet v k) /\
    trace r = [FindOne (VObj []); MarkModified (VStr "members")].
Proof.
  exact (pushArrayValue_converts_named_fields (singleDocument membersDocument)
           false (VObj []) (VStr "members")
           [("owner", VStr "aaaaaaaaaaaaaaaaaaaaaaaa"); ("n", VNum 1)]
           [VStr "owner"]
           [("members", VArr [VId "aaaaaaaaaaaaaaaaaaaaaaaa"])]
           [VId "aaaaaaaaaaaaaaaaaaaaaaaa"] 200
           (VObj [("members",
                   VArr [VId "aaaaaaaaaaaaaaaaaaaaaaaa";
                         VObj [("owner", VId "aaaaaaaaaaaaaaaaaaaaaaaa");
                               ("n", VNum 1)]])])
           eq_refl eq_refl eq_refl).
Defined.

(** [{fromField: "old", toField: "new"}] on [{old: 1, other: 2}]. *)
Lemma translate_example :
  let update := VObj [("fromField", VStr "old"); ("toField", VStr "new")] in
  let r := translateCallback (VArr [update]) [Find (VObj [])] (VError "e")
             (VArr [VObj [("old", VNum 1); ("other", VNum 2)]]) in
  exists o,
    document r = VArr [o] /\
    getProp o "new" = VNum 1 /\
    hasOwn o "old" = false /\
    (forall k, k <> "old" -> k <> "new" ->
       getProp o k = getProp (VObj [("old", VNum 1); ("other", VNum 2)]) k) /\
    trace r = [Find (VObj [])]
              ++ [MarkModified (VStr "old"); MarkModified (VStr "new"); Save o] /\
    response r = NoResponse.
Proof.
  apply (translate_moves_a_field [Find (VObj [])] "e"
           [("old", VNum 1); ("other", VNum 2)] "old" "new" (VNum 1));
    first [reflexivity | discriminate].
Defined.
